(** * Secure Authentication System: the credential core of [final.cpp]

    A shallow embedding of the password-strength checker, the password
    hasher, the credential store and the two workflows that use them,
    followed by the properties of the specification that hold (or fail) on
    that code.

    Conventions.
    - [std::string] is [string]; positions and lengths ([size_t]) are [nat],
      with [string::npos] as [None]; [int] is [Z].
    - A C++ exception is a value of [exception]; a function that can throw
      returns a [result].
    - [Database::users] (a [std::map]) is a [gmap]; [users.txt] is an
      optional string, [None] when the file does not exist.
    - libsodium is not part of the repository: its salt size, its
      initialisation status and its key derivation are the fields of the
      class [Sodium]. *)

From Stdlib Require Import ZArith NArith Ascii String List Lia Bool.
From Stdlib Require Import Strings.Byte.
From stdpp Require Import base option list gmap strings sorting.

Local Open Scope Z_scope.

(** ** <cctype>, in the "C" locale

    The program never sets a locale.  A [char] is taken by its code from 0
    to 255; a code above 127 is in none of the classes. *)

Module CType.

Definition code (c : ascii) : N := N_of_ascii c.

Definition between (lo hi : N) (c : ascii) : bool :=
  ((lo <=? code c) && (code c <=? hi))%N.

Definition islower (c : ascii) : bool := between 97 122 c.
Definition isupper (c : ascii) : bool := between 65 90 c.
Definition isdigit (c : ascii) : bool := between 48 57 c.
Definition isalpha (c : ascii) : bool := islower c || isupper c.
Definition isalnum (c : ascii) : bool := isalpha c || isdigit c.
(** space, and \t \n \v \f \r *)
Definition isspace (c : ascii) : bool := (code c =? 32)%N || between 9 13 c.

End CType.

(** ** Terminal

    Only the coloured one-line reports are kept, as the sequence of messages
    written; prompts, headers, the progress bar and the pauses are not
    tracked. *)

Inductive message : Type :=
  | Success (text : string)   (* Terminal::printSuccess *)
  | Error (text : string)     (* Terminal::printError *)
  | Warning (text : string)   (* Terminal::printWarning *)
  | Info (text : string).     (* Terminal::printInfo *)

Global Instance message_eq_dec : EqDecision message.
Proof. solve_decision. Defined.

(** ** StandardPasswordChecker *)

Module StandardPasswordChecker.
Import CType.

Record flags : Type := Flags
  { hasLower : bool; hasUpper : bool; hasDigit : bool; hasSpecial : bool }.

Definition no_flags : flags := Flags false false false false.

(** The body of [for (char c : pw)]: an if / else-if chain, so each
    character sets exactly one flag. *)
Definition classify (f : flags) (c : ascii) : flags :=
  if islower c then Flags true (hasUpper f) (hasDigit f) (hasSpecial f)
  else if isupper c then Flags (hasLower f) true (hasDigit f) (hasSpecial f)
  else if isdigit c then Flags (hasLower f) (hasUpper f) true (hasSpecial f)
  else Flags (hasLower f) (hasUpper f) (hasDigit f) true.

Fixpoint scan (pw : string) (f : flags) : flags :=
  match pw with
  | EmptyString => f
  | String c rest => scan rest (classify f c)
  end.

Definition length_error : message :=
  Error "Password length must be at least 12 characters!".
Definition missing_lower : message := Error "Missing lowercase character".
Definition missing_upper : message := Error "Missing uppercase character".
Definition missing_digit : message := Error "Missing digit".
Definition missing_special : message := Error "Missing special character".

Definition unless (b : bool) (m : message) : list message :=
  if b then [] else [m].

(** Returns the boolean result and the messages printed, in order. *)
Definition checkStrength (pw : string) : bool * list message :=
  if (String.length pw <? 12)%nat then (false, [length_error])
  else
    let f := scan pw no_flags in
    let out := unless (hasLower f) missing_lower
               ++ unless (hasUpper f) missing_upper
               ++ unless (hasDigit f) missing_digit
               ++ unless (hasSpecial f) missing_special in
    if hasLower f && hasUpper f && hasDigit f && hasSpecial f
    then (true, out ++ [Success "Valid password!"])
    else (false, out).

(** [(int)(pw.length() * 3.33)]: the product is a [double] and the cast
    truncates it.  For a length up to 12 the exact product 3.33 * n lies at
    least 0.01 away from every integer, far more than the rounding error of
    the [double] product, so the truncation equals the integer quotient
    below; from 13 on both are above 40 and [min] hides them.  (A length
    beyond 644 million, where the product no longer fits an [int], is
    outside the model.) *)
Definition length_points (n : nat) : Z := (333 * Z.of_nat n) / 100.

Definition bonus (b : bool) (score : Z) : Z :=
  if b then score + 15 else score.

Definition calculateStrengthPercentage (pw : string) : Z :=
  let score := Z.min 40 (length_points (String.length pw)) in
  let f := scan pw no_flags in
  let score := bonus (hasLower f) score in
  let score := bonus (hasUpper f) score in
  let score := bonus (hasDigit f) score in
  let score := bonus (hasSpecial f) score in
  Z.min 100 score.

End StandardPasswordChecker.

(** ** The words of the specification about the strength evaluator *)

Module StrengthSpec.
Import CType.

Inductive category : Type := Lowercase | Uppercase | Digit | Special.

(** "special" is: not a letter and not a digit. *)
Definition member (k : category) (c : ascii) : bool :=
  match k with
  | Lowercase => islower c
  | Uppercase => isupper c
  | Digit => isdigit c
  | Special => negb (isalpha c) && negb (isdigit c)
  end.

Definition present (k : category) (pw : string) : bool :=
  existsb (member k) (list_ascii_of_string pw).

(** Some character of [pw] satisfies [P]. *)
Definition contains (pw : string) (P : ascii → bool) : Prop :=
  ∃ c, In c (list_ascii_of_string pw) ∧ P c = true.

Definition all_present (pw : string) : bool :=
  present Lowercase pw && present Uppercase pw
  && present Digit pw && present Special pw.

(** the flag of the loop that stands for a category *)
Definition flag (k : category) (f : StandardPasswordChecker.flags) : bool :=
  match k with
  | Lowercase => StandardPasswordChecker.hasLower f
  | Uppercase => StandardPasswordChecker.hasUpper f
  | Digit => StandardPasswordChecker.hasDigit f
  | Special => StandardPasswordChecker.hasSpecial f
  end.

Definition categories : list category :=
  [Lowercase; Uppercase; Digit; Special].

(** the number of categories present *)
Definition category_count (pw : string) : Z :=
  Z.of_nat (List.length (List.filter (fun k => present k pw) categories)).

Definition diagnostic (k : category) : message :=
  match k with
  | Lowercase => StandardPasswordChecker.missing_lower
  | Uppercase => StandardPasswordChecker.missing_upper
  | Digit => StandardPasswordChecker.missing_digit
  | Special => StandardPasswordChecker.missing_special
  end.

(** round(n * 3.33), to the nearest integer *)
Definition rounded_length_points (n : nat) : Z :=
  (333 * Z.of_nat n + 50) / 100.

(** The score as the specification words it. *)
Definition score_with_rounding (pw : string) : Z :=
  Z.min 100 (Z.min 40 (rounded_length_points (String.length pw))
             + 15 * category_count pw).

(** The diagnostics as the specification words them: the result is false
    and every missing category has its message among those printed. *)
Definition reports_every_missing_category (pw : string) : Prop :=
  (StandardPasswordChecker.checkStrength pw).1 = false ∧
  ∀ k, present k pw = false →
       diagnostic k ∈ (StandardPasswordChecker.checkStrength pw).2.

End StrengthSpec.

(** ** Exceptions *)

Inductive exception : Type :=
  | invalid_argument (what : string)
  | out_of_range (what : string)
  | runtime_error (what : string).

Inductive result (A : Type) : Type :=
  | Ok (a : A)
  | Throw (e : exception).
Global Arguments Ok {A} a.
Global Arguments Throw {A} e.

Global Instance result_ret : MRet result := λ A a, Ok a.
Global Instance result_bind : MBind result := λ A B f m,
  match m with
  | Ok a => f a
  | Throw e => Throw e
  end.

(** ** <string> *)

Module StdString.
Import CType.

(** [s.substr(pos, n)]; [n = None] is the default [npos]. *)
Definition substr (s : string) (pos : nat) (n : option nat) : result string :=
  if (String.length s <? pos)%nat
  then Throw (out_of_range "basic_string::substr")
  else Ok (String.substring pos
             (match n with Some k => k | None => String.length s - pos end)%nat
             s).

(** [s.find(c, pos)] *)
Fixpoint find (c : ascii) (s : string) (pos : nat) : option nat :=
  match s with
  | EmptyString => None
  | String a rest =>
      match pos with
      | O => if Ascii.eqb a c then Some O else S <$> find c rest O
      | S p => S <$> find c rest p
      end
  end.

Definition INT_MIN : Z := - 2 ^ 31.
Definition INT_MAX : Z := 2 ^ 31 - 1.

Definition hex_value (c : ascii) : option Z :=
  if isdigit c then Some (Z.of_N (code c) - 48)
  else if between 97 102 c then Some (Z.of_N (code c) - 87)
  else if between 65 70 c then Some (Z.of_N (code c) - 55)
  else None.

Fixpoint skip_spaces (s : string) : string :=
  match s with
  | String c rest => if isspace c then skip_spaces rest else s
  | EmptyString => s
  end.

(** The longest run of hexadecimal digits at the front of [s], as a
    number; [acc] is [None] until a digit has been read. *)
Fixpoint hex_digits (s : string) (acc : option Z) : option Z :=
  match s with
  | String c rest =>
      match hex_value c with
      | Some d => hex_digits rest (Some (16 * default 0 acc + d))
      | None => acc
      end
  | EmptyString => acc
  end.

Definition strip_sign (s : string) : bool * string :=
  match s with
  | String "-" rest => (true, rest)
  | String "+" rest => (false, rest)
  | _ => (false, s)
  end.

(** A 0x or 0X prefix is dropped only when a digit follows it. *)
Definition strip_0x (s : string) : string :=
  match s with
  | String "0" (String x (String d rest)) =>
      if (Ascii.eqb x "x" || Ascii.eqb x "X") && bool_decide (is_Some (hex_value d))
      then String d rest else s
  | _ => s
  end.

(** [strtol(s, &end, 16)] without the clamping: [None] when no digit was
    converted. *)
Definition strtol16 (s : string) : option Z :=
  let '(negative, s) := strip_sign (skip_spaces s) in
  v ← hex_digits (strip_0x s) None;
  Some (if negative : bool then - v else v).

(** [stoi(s, nullptr, 16)] *)
Definition stoi16 (s : string) : result Z :=
  match strtol16 s with
  | None => Throw (invalid_argument "stoi")
  | Some v =>
      if (v <? INT_MIN) || (INT_MAX <? v)
      then Throw (out_of_range "stoi")
      else Ok v
  end.

End StdString.

(** ** libsodium *)

Class Sodium : Type := {
  (** the value [sodium_init()] returns *)
  sodium_init : Z;
  crypto_pwhash_SALTBYTES : nat;
  (** [crypto_pwhash(out, outlen, passwd, passwd.size(), salt,
      OPSLIMIT_MODERATE, MEMLIMIT_MODERATE, ALG_DEFAULT)]: the [outlen] bytes
      written to [out] when it returns 0, [None] when it does not. *)
  crypto_pwhash : nat → string → list byte → option (list byte);
}.

(** ** PasswordHasher *)

Module PasswordHasher.
Import StdString.

Section WithSodium.
Context `{Sodium}.

Definition initialize : bool * list message :=
if 0 <=? sodium_init then (true, [])
else (false, [Error "Libsodium init failed"]).

Definition hex_digit (d : N) : ascii :=
if (d <? 10)%N then ascii_of_N (48 + d) else ascii_of_N (87 + d).

(** [snprintf(&hex[i*2], 3, "%02x", b)] *)
Definition printf_02x (b : byte) : string :=
String (hex_digit (Byte.to_N b / 16))
  (String (hex_digit (Byte.to_N b mod 16)) EmptyString).

(** The loop that prints a buffer into [hex], and [string(hex)]. *)
Fixpoint to_hex (buf : list byte) : string :=
match buf with
| [] => EmptyString
| b :: rest => printf_02x b +:+ to_hex rest
end.

(** [randombytes_buf(salt, sizeof salt)]: the next [SALTBYTES] bytes of
  the random source. *)
Definition randombytes_buf (entropy : nat → byte) : list byte :=
entropy <$> seq 0 crypto_pwhash_SALTBYTES.

Definition generateSalt (entropy : nat → byte) : string :=
to_hex (randombytes_buf entropy).

(** conversion of an [int] to [unsigned char] *)
Definition to_uchar (v : Z) : byte :=
default Byte.x00 (Byte.of_N (Z.to_N (v mod 256))).

(** [salt[i] = stoi(salt_hex.substr(i*2, 2), nullptr, 16)] *)
Definition decode_piece (salt_hex : string) (i : nat) : result byte :=
  piece ← substr salt_hex (i * 2) (Some 2%nat);
  v ← stoi16 piece;
  mret (to_uchar v).

(** The loop over [i] from 0 to [SALTBYTES - 1]; the first exception ends
    it. *)
Definition decode_salt (salt_hex : string) : result (list byte) :=
  mapM (decode_piece salt_hex) (seq 0 crypto_pwhash_SALTBYTES).

Definition hashPassword (password salt_hex : string) : result string :=
salt ← decode_salt salt_hex;
match crypto_pwhash 32 password salt with
| None => Throw (runtime_error "Hashing failed")
| Some hash => Ok (to_hex hash)
end.

Definition verifyPassword (password hash salt : string) : bool :=
match hashPassword password salt with      (* try *)
| Ok computed => bool_decide (hash = computed)
| Throw _ => false                         (* catch (...) *)
end.

End WithSodium.
End PasswordHasher.

(** ** Text streams *)

Module Stream.

Definition newline : ascii := ascii_of_N 10.

(** The characters before the first newline, and what follows it. *)
Fixpoint read_line (stream : string) : string * string :=
  match stream with
  | EmptyString => (EmptyString, EmptyString)
  | String c rest =>
      if Ascii.eqb c newline then (EmptyString, rest)
      else let '(line, rest') := read_line rest in (String c line, rest')
  end.

(** [getline(stream, line)]: fails ([None]) when nothing is left to
    extract; the newline that ends a line is consumed and not stored. *)
Definition getline (stream : string) : option (string * string) :=
  match stream with
  | EmptyString => None
  | _ => Some (read_line stream)
  end.

(** The lines that [while (getline(stream, line))] goes through. *)
Fixpoint getlines (stream : string) : list string :=
  match stream with
  | EmptyString => []
  | String c rest =>
      if Ascii.eqb c newline then EmptyString :: getlines rest
      else match getlines rest with
           | [] => [String c EmptyString]
           | line :: more => String c line :: more
           end
  end.

End Stream.

(** ** Database

    The two static members, [users] and the file named [filename], are the
    state; a file that exists can always be opened and written. *)

Module Database.
Import StdString Stream.

Definition credentials : Type := string * string.   (* (hash, salt) *)

Record state : Type := State
  { users : gmap string credentials;
    file : option string }.

Definition filename : string := "users.txt".

(** The body of the loop of [loadUsers] for one line.  [pos1 + 1] is
    computed before [pos1] is tested: for [npos] it wraps around to 0. *)
Definition load_line (line : string) (m : gmap string credentials)
  : result (gmap string credentials) :=
  let pos1 := find "," line 0 in
  let pos2 := find "," line (match pos1 with Some p => p + 1 | None => 0 end)%nat in
  match pos1, pos2 with
  | Some p1, Some p2 =>
      user ← substr line 0 (Some p1);
      hash ← substr line (p1 + 1) (Some (p2 - p1 - 1))%nat;
      salt ← substr line (p2 + 1) None;
      mret (<[user := (hash, salt)]> m)
  | _, _ => mret m                                   (* continue *)
  end.

Fixpoint load_lines (lines : list string) (m : gmap string credentials)
  : result (gmap string credentials) :=
  match lines with
  | [] => mret m
  | line :: more => m' ← load_line line m; load_lines more m'
  end.

Definition loadUsers (st : state) : result state :=
  match file st with
  | None => mret st                                  (* if (!file) return; *)
  | Some content =>
      m ← load_lines (getlines content) (users st);
      mret (State m (file st))
  end.

(** A [std::map] is walked in the order of its keys, which for
    [std::string] compares the characters as unsigned bytes. *)
Definition key_le (a b : string * credentials) : Prop := String.le a.1 b.1.

Global Instance key_le_dec : RelDecision key_le.
Proof. intros a b. unfold key_le. apply _. Defined.

Definition entries (m : gmap string credentials) : list (string * credentials) :=
  merge_sort key_le (map_to_list m).

(** [file << user << "," << data.first << "," << data.second << endl] *)
Definition write_entry (e : string * credentials) : string :=
  e.1 +:+ "," +:+ e.2.1 +:+ "," +:+ e.2.2 +:+ String newline EmptyString.

Fixpoint write_entries (l : list (string * credentials)) : string :=
  match l with
  | [] => EmptyString
  | e :: rest => write_entry e +:+ write_entries rest
  end.

Definition saveUsers (st : state) : state :=
  State (users st) (Some (write_entries (entries (users st)))).

Definition userExists (username : string) (st : state) : bool :=
  bool_decide (is_Some (users st !! username)).

Definition addUser (username hash salt : string) (st : state) : bool * state :=
  if userExists username st then (false, st)
  else (true, saveUsers (State (<[username := (hash, salt)]> (users st)) (file st))).

(** The two output parameters are set only when the user is found. *)
Definition getCredentials (username : string) (st : state) : option credentials :=
  users st !! username.

Definition userCount (st : state) : Z := Z.of_nat (size (users st)).

(** The state of a process that has just started. *)
Definition fresh (disk : option string) : state := State ∅ disk.

End Database.

(** ** The interactive program

    The world of the process: standard input ([cin]) as the characters not
    yet read, the keystrokes [_getch] will return, the random source, the
    messages printed so far and the database.

    The state bits of [cin] are not tracked: after a failed extraction
    [main] clears them at once, and every other failure leaves the input
    exhausted, where each later operation fails in the same way again. *)

Record world : Type := World
  { cin : string;
    keys : string;
    entropy : nat → byte;
    printed : list message;
    db : Database.state }.

Inductive outcome (A : Type) : Type :=
  | Returned (a : A) (w : world)
  | Thrown (e : exception) (w : world)
  | Blocked (w : world)          (* waits for a keystroke that never comes *)
  | OutOfFuel.
Global Arguments Returned {A} a w.
Global Arguments Thrown {A} e w.
Global Arguments Blocked {A} w.
Global Arguments OutOfFuel {A}.

Definition action (A : Type) : Type := world → outcome A.

Global Instance action_ret : MRet action := λ A a w, Returned a w.
Global Instance action_bind : MBind action := λ A B f m w,
  match m w with
  | Returned a w' => f a w'
  | Thrown e w' => Thrown e w'
  | Blocked w' => Blocked w'
  | OutOfFuel => OutOfFuel
  end.

Module Console.
Import CType Stream.

Definition print (m : message) : action unit := λ w,
  Returned tt (World (cin w) (keys w) (entropy w) (printed w ++ [m]) (db w)).

Definition with_cin {A} (f : string → A * string) : action A := λ w,
  let '(a, rest) := f (cin w) in
  Returned a (World rest (keys w) (entropy w) (printed w) (db w)).

(** [getline(cin, line)] into an empty [line] *)
Definition cin_getline : action string :=
  with_cin (λ s, default (EmptyString, EmptyString) (getline s)).

(** [cin.ignore()] *)
Definition cin_ignore : action unit :=
  with_cin (λ s, (tt, match s with String _ rest => rest | EmptyString => s end)).

(** [cin.ignore(numeric_limits<streamsize>::max(), '\n')] *)
Definition cin_ignore_line : action unit :=
  with_cin (λ s, (tt, (read_line s).2)).

(** [Terminal::waitForEnter] *)
Definition waitForEnter : action unit := cin_ignore_line.

Definition decimal_value (c : ascii) : option Z :=
  if isdigit c then Some (Z.of_N (code c) - 48) else None.

Fixpoint decimal_digits (s : string) (acc : option Z) : option Z * string :=
  match s with
  | String c rest =>
      match decimal_value c with
      | Some d => decimal_digits rest (Some (10 * default 0 acc + d))
      | None => (acc, s)
      end
  | EmptyString => (acc, s)
  end.

(** [cin >> choice] for an [int]: white space is skipped, then an optional
    sign and decimal digits are read; [None] when the extraction fails (no
    digit, or a value that does not fit). *)
Definition extract_int (s : string) : option Z * string :=
  let '(negative, s) := StdString.strip_sign (StdString.skip_spaces s) in
  let '(digits, rest) := decimal_digits s None in
  (v ← digits;
   let v := if negative : bool then - v else v in
   if (v <? StdString.INT_MIN) || (StdString.INT_MAX <? v) then None else Some v,
   rest).

Definition cin_int : action (option Z) := with_cin extract_int.

Definition backspace : ascii := ascii_of_N 8.
Definition carriage_return : ascii := ascii_of_N 13.

Definition push_back (s : string) (c : ascii) : string :=
  s +:+ String c EmptyString.
Definition pop_back (s : string) : string :=
  String.substring 0 (String.length s - 1) s.

(** The loop of [getPasswordFromUser]: [None] when the keystrokes run out
    before Enter. *)
Fixpoint read_password (keystrokes password : string) : option (string * string) :=
  match keystrokes with
  | EmptyString => None
  | String ch rest =>
      if Ascii.eqb ch carriage_return then Some (password, rest)
      else if Ascii.eqb ch backspace then
        read_password rest
          (match password with EmptyString => password | _ => pop_back password end)
      else read_password rest (push_back password ch)
  end.

Definition getPasswordFromUser : action string := λ w,
  match read_password (keys w) EmptyString with
  | None => Blocked w
  | Some (password, rest) =>
      Returned password (World (cin w) rest (entropy w) (printed w) (db w))
  end.

End Console.

(** ** User, the two screens and main *)

Module Workflow.
Import CType Console.

Section WithSodium.
Context `{Sodium}.

Definition out_of_fuel {A} : action A := λ _, OutOfFuel.

Definition lift {A} (r : result A) : action A := λ w,
match r with
| Ok a => Returned a w
| Throw e => Thrown e w
end.

Fixpoint print_all (msgs : list message) : action unit :=
match msgs with
| [] => mret tt
| m :: rest => print m;; print_all rest
end.

Definition with_db {A} (f : Database.state → A * Database.state) : action A := λ w,
let '(a, st) := f (db w) in
Returned a (World (cin w) (keys w) (entropy w) (printed w) st).

(** [PasswordHasher::generateSalt], drawing from the random source *)
Definition generateSalt : action string := λ w,
Returned (PasswordHasher.generateSalt (entropy w))
  (World (cin w) (keys w)
     (λ i, entropy w (crypto_pwhash_SALTBYTES + i)%nat)
     (printed w) (db w)).

(** [User::setPassword]; when it returns [true] the password kept is [pw]. *)
Definition setPassword (pw : string) : action bool :=
let '(strong, msgs) := StandardPasswordChecker.checkStrength pw in
print_all msgs;;
if negb strong then mret false
else
  let strength := StandardPasswordChecker.calculateStrengthPercentage pw in
  (if strength <? 70 then print (Warning "Password could be stronger")
   else if 90 <=? strength then print (Success "Excellent password!")
   else mret tt);;
  confirm ← getPasswordFromUser;
  if bool_decide (pw = confirm) then mret true
  else print (Error "Passwords don't match");; mret false.

(** [while (!passwordSet)]; returns [newUser.getPassword()]. *)
Fixpoint choose_password (fuel : nat) : action string :=
match fuel with
| O => out_of_fuel
| S fuel' =>
    pw ← getPasswordFromUser;
    if bool_decide (pw = EmptyString)
    then print (Error "Password cannot be empty");; choose_password fuel'
    else
      passwordSet ← setPassword pw;
      if passwordSet : bool then mret pw else choose_password fuel'
end.

Definition requirements : string :=
"Password Requirements:" +:+ String Stream.newline
"- Minimum 12 characters" +:+ String Stream.newline
"- At least 1 uppercase, 1 lowercase" +:+ String Stream.newline
"- At least 1 digit and 1 special character".

(** The end of [registrationScreen], from [generateSalt] on.  Nothing here
  catches what [hashPassword] throws. *)
Definition create_account (username password : string) : action unit :=
salt ← generateSalt;
hash ← lift (PasswordHasher.hashPassword password salt);
added ← with_db (Database.addUser username hash salt);
(if added : bool then print (Success "Account created successfully!")
 else print (Error "Account creation failed"));;
waitForEnter.

Definition registrationScreen (fuel : nat) : action unit :=
username ← cin_getline;
if bool_decide (username = EmptyString)
then print (Error "Username required");; waitForEnter
else if negb (forallb isalnum (list_ascii_of_string username))
then print (Error "Only alphanumeric characters allowed");; waitForEnter
else
  taken ← with_db (λ st, (Database.userExists username st, st));
  if taken : bool
  then print (Error "Username already taken");; waitForEnter
  else
    print (Info requirements);;
    password ← choose_password fuel;
    create_account username password.

Definition loginScreen : action unit :=
username ← cin_getline;
if bool_decide (username = EmptyString)
then print (Error "Username required");; waitForEnter
else
  password ← getPasswordFromUser;
  stored ← with_db (λ st, (Database.getCredentials username st, st));
  match stored with
  | None => print (Error "User not found");; waitForEnter
  | Some (storedHash, storedSalt) =>
      (if PasswordHasher.verifyPassword password storedHash storedSalt
       then print (Success "Login successful!")
       else print (Error "Invalid credentials"));;
      waitForEnter
  end.

(** [while (true)] of [main]; returns the exit code. *)
Fixpoint menu (fuel : nat) : action Z :=
match fuel with
| O => out_of_fuel
| S fuel' =>
    choice ← cin_int;
    match choice with
    | None =>
        cin_ignore_line;; print (Error "Invalid input");; menu fuel'
    | Some c =>
        cin_ignore;;
        if c =? 1 then loginScreen;; menu fuel'
        else if c =? 2 then registrationScreen fuel';; menu fuel'
        else if c =? 3 then print (Success "Goodbye!");; mret 0
        else print (Error "Invalid choice");; menu fuel'
    end
end.

Definition loadUsers : action unit := λ w,
match Database.loadUsers (db w) with
| Ok st => Returned tt (World (cin w) (keys w) (entropy w) (printed w) st)
| Throw e => Thrown e w
end.

(** [main] has no handler either: [Thrown e] as its outcome is an exception
  that leaves [main], on which the runtime calls [std::terminate] and the
  process is aborted. *)
Definition main (fuel : nat) : action Z :=
let '(initialized, msgs) := PasswordHasher.initialize in
print_all msgs;;
if negb initialized then mret 1
else loadUsers;; menu fuel.

End WithSodium.
End Workflow.

(** ** The words of the specification about the backing file *)

Module StoreSpec.
Import Stream Database.

Definition has_char (c : ascii) (s : string) : bool :=
  existsb (Ascii.eqb c) (list_ascii_of_string s).


(** The text before the first [c] and the text after it. *)
Fixpoint cut (c : ascii) (s : string) : option (string * string) :=
  match s with
  | EmptyString => None
  | String a rest =>
      if Ascii.eqb a c then Some (EmptyString, rest)
      else '(before, after) ← cut c rest; Some (String a before, after)
  end.

(** A line is a record when it has two commas: the username is what comes
    before the first, the hash what is between the first and the second, the
    salt all the rest. *)
Definition parse_record (line : string) : option (string * credentials) :=
  '(user, rest) ← cut "," line;
  '(hash, salt) ← cut "," rest;
  Some (user, (hash, salt)).

Definition store (m : gmap string credentials) (e : string * credentials)
  : gmap string credentials := <[e.1 := e.2]> m.

(** The line of a record, without the newline that ends it. *)
Definition record_line (e : string * credentials) : string :=
  e.1 +:+ String "," (e.2.1 +:+ String "," e.2.2).

(** A record whose line reads back as itself: no comma in the username or
    in the hash, and no newline anywhere. *)
Definition storable (e : string * credentials) : Prop :=
  has_char "," e.1 = false ∧ has_char newline e.1 = false
  ∧ has_char "," e.2.1 = false ∧ has_char newline e.2.1 = false
  ∧ has_char newline e.2.2 = false.

(** Saving a mapping and loading the file into a fresh store gives the
    mapping back. *)
Definition survives_save_and_load (m : gmap string credentials) : Prop :=
  ∃ st, loadUsers (fresh (file (saveUsers (State m None)))) = Ok st
        ∧ users st = m.

End StoreSpec.

(** ** Instances and inputs for the examples *)

Module Examples.

(** A stand-in for libsodium whose key derivation succeeds: the digest is
    the first [outlen] bytes of the salt written twice. *)
Definition working_sodium : Sodium :=
  {| sodium_init := 0;
     crypto_pwhash_SALTBYTES := 16;
     crypto_pwhash := λ outlen _ salt, Some (take outlen (salt ++ salt)) |}.

(** A libsodium whose key derivation fails, as it does when it cannot
    allocate its memory. *)
Definition exhausted_sodium : Sodium :=
  {| sodium_init := 0;
     crypto_pwhash_SALTBYTES := 16;
     crypto_pwhash := λ _ _ _, None |}.

Definition enter : string := String Stream.newline EmptyString.
Definition key_enter : string := String Console.carriage_return EmptyString.

(** A user who picks 2 (Register), types the username alice, then a valid
    password and its confirmation, presses Enter and picks 3 (Exit); there
    is no [users.txt] yet. *)
Definition alice_registers : world :=
  {| cin := "2" +:+ enter +:+ "alice" +:+ enter +:+ enter +:+ "3" +:+ enter;
     keys := "Str0ng!Passw0rd" +:+ key_enter +:+ "Str0ng!Passw0rd" +:+ key_enter;
     entropy := λ _, Byte.x00;
     printed := [];
     db := Database.fresh None |}.

End Examples.

(** ** Terminal::printHeader

    What [printHeader] writes after it has cleared the screen. *)

Module Terminal.

Definition escape : ascii := ascii_of_N 27.
Definition Reset : string := String escape "[0m".
Definition Blue : string := String escape "[34m".
Definition Bold : string := String escape "[1m".

(** [string(n, c)] *)
Fixpoint fill (n : nat) (c : ascii) : string :=
  match n with
  | O => EmptyString
  | S n' => String c (fill n' c)
  end.

(** [cout << setw(n) << s]: [s] at the right of a field of [n] characters,
    filled with spaces; a longer [s] is written whole. *)
Definition setw (n : nat) (s : string) : string :=
  fill (n - String.length s) " " +:+ s.

Definition endl : string := String Stream.newline EmptyString.

Definition printHeader (title : string) : string :=
  let width := 60%nat in
  let line := fill width "=" in
  Bold +:+ Blue +:+ line +:+ endl
  +:+ setw ((width + String.length title) / 2) title +:+ endl
  +:+ line +:+ endl
  +:+ Reset +:+ endl.

End Terminal.

(** ** Vocabulary of the further properties *)

Module Vocabulary.

(** a digit or a letter from a to f *)
Definition is_lower_hex (c : ascii) : bool :=
  CType.isdigit c || CType.between 97 102 c.

Definition all_chars (P : ascii → bool) (s : string) : bool :=
  forallb P (list_ascii_of_string s).

(** The text made of the given lines, each ended by a newline. *)
Fixpoint join_lines (lines : list string) : string :=
  match lines with
  | [] => EmptyString
  | line :: rest => line +:+ String Stream.newline (join_lines rest)
  end.

Definition is_error (m : message) : bool :=
  match m with Error _ => true | _ => false end.

(** The exceptions of [substr] and [stoi], as opposed to the one
    [hashPassword] throws itself. *)
Definition from_salt (e : exception) : bool :=
  match e with
  | out_of_range _ | invalid_argument _ => true
  | runtime_error _ => false
  end.

(** Every record of the mapping is one the file format can hold. *)
Definition all_storable (m : gmap string Database.credentials) : Prop :=
  ∀ u c, m !! u = Some c → StoreSpec.storable (u, c).

(** The users in memory are those a new process would load from the file. *)
Definition synced (st : Database.state) : Prop :=
  ∃ st', Database.loadUsers (Database.fresh (Database.file st)) = Ok st'
         ∧ Database.users st' = Database.users st.

Definition is_control_key (c : ascii) : bool :=
  Ascii.eqb c Console.carriage_return || Ascii.eqb c Console.backspace.

Definition no_control_key (s : string) : Prop :=
  StoreSpec.has_char Console.carriage_return s = false
  ∧ StoreSpec.has_char Console.backspace s = false.

(** The worlds [w] and [w'] have the same store and the same random
    source: they differ at most in the input left and in what was printed. *)
Definition same_store (w w' : world) : Prop :=
  db w' = db w ∧ entropy w' = entropy w.

End Vocabulary.

(** ** More inputs for the examples *)

Module MoreExamples.
Import Examples.

(** a file line for the user bob *)
Definition bob_line : string :=
  "bob,h1,s1" +:+ String Stream.newline EmptyString.

(** A user who types the username alice and a password, with alice already
    in the store under another hash. *)
Definition alice_logs_in : world :=
  {| cin := "alice" +:+ enter +:+ enter;
     keys := "Str0ng!Passw0rd" +:+ key_enter;
     entropy := λ _, Byte.x00;
     printed := [];
     db := (Database.addUser "alice" "aa" "bb" (Database.fresh None)).2 |}.

End MoreExamples.

(** * Properties *)

(** ** Strength evaluator *)

Section Strength.
Import CType StandardPasswordChecker StrengthSpec.

Lemma between_apart lo1 hi1 lo2 hi2 c :
  (hi1 < lo2)%N ∨ (hi2 < lo1)%N →
  between lo1 hi1 c = true → between lo2 hi2 c = false.
Proof.
  unfold between. intros Hapart Hin.
  apply andb_true_iff in Hin as [Hlo Hhi].
  apply N.leb_le in Hlo, Hhi.
  apply andb_false_iff.
  destruct Hapart; [left | right]; apply N.leb_gt; lia.
Qed.

Lemma lower_not_upper c : islower c = true → isupper c = false.
Proof. apply between_apart. right. reflexivity. Qed.

Lemma lower_not_digit c : islower c = true → isdigit c = false.
Proof. apply between_apart. right. reflexivity. Qed.

Lemma upper_not_digit c : isupper c = true → isdigit c = false.
Proof. apply between_apart. right. reflexivity. Qed.

(** One character sets the flag of its own category and no other. *)
Lemma classify_flag k f c :
  flag k (classify f c) = flag k f || member k c.
Proof.
  unfold classify, member, isalpha.
  destruct (islower c) eqn:Hl.
  - rewrite (lower_not_upper c Hl), (lower_not_digit c Hl).
    destruct k; simpl; rewrite ?orb_true_r, ?orb_false_r; reflexivity.
  - destruct (isupper c) eqn:Hu.
    + rewrite (upper_not_digit c Hu).
      destruct k; simpl; rewrite ?orb_true_r, ?orb_false_r; reflexivity.
    + destruct (isdigit c) eqn:Hd;
        destruct k; simpl; rewrite ?orb_true_r, ?orb_false_r; reflexivity.
Qed.

Lemma scan_flag k pw : ∀ f,
  flag k (scan pw f) = flag k f || present k pw.
Proof.
  unfold present.
  induction pw as [|c pw IH]; intros f; simpl.
  - by rewrite orb_false_r.
  - by rewrite IH, classify_flag, orb_assoc.
Qed.

Lemma scan_present k pw : flag k (scan pw no_flags) = present k pw.
Proof. by rewrite scan_flag; destruct k. Qed.

(** [checkStrength] on a password of 12 characters or more, with the flags
    of the loop replaced by what they stand for. *)
Lemma checkStrength_long pw :
  (12 ≤ String.length pw)%nat →
  checkStrength pw =
    (all_present pw,
     unless (present Lowercase pw) missing_lower
     ++ unless (present Uppercase pw) missing_upper
     ++ unless (present Digit pw) missing_digit
     ++ unless (present Special pw) missing_special
     ++ (if all_present pw then [Success "Valid password!"] else [])).
Proof.
  intros Hlen. unfold checkStrength, all_present.
  destruct (Nat.ltb_spec (String.length pw) 12) as [|_]; [lia|].
  pose proof (scan_present Lowercase pw) as Hl.
  pose proof (scan_present Uppercase pw) as Hu.
  pose proof (scan_present Digit pw) as Hd.
  pose proof (scan_present Special pw) as Hs.
  simpl in Hl, Hu, Hd, Hs. rewrite Hl, Hu, Hd, Hs.
  destruct (_ && _); by rewrite <- ?app_assoc, ?app_nil_r.
Qed.

Lemma checkStrength_short pw :
  (String.length pw < 12)%nat → checkStrength pw = (false, [length_error]).
Proof.
  intros Hlen. unfold checkStrength.
  destruct (Nat.ltb_spec (String.length pw) 12); [done | lia].
Qed.

(** What [checkStrength] prints for a password of 12 characters or more:
    the message of a category is there exactly when the category is
    missing. *)
Lemma checkStrength_diagnostics pw k :
  (12 ≤ String.length pw)%nat →
  diagnostic k ∈ (checkStrength pw).2 ↔ present k pw = false.
Proof.
  intros Hlen. rewrite (checkStrength_long pw Hlen). unfold all_present.
  rewrite list_elem_of_In.
  unfold missing_lower, missing_upper, missing_digit, missing_special.
  destruct k;
    destruct (present Lowercase pw), (present Uppercase pw),
      (present Digit pw), (present Special pw);
    simpl; intuition (discriminate || auto).
Qed.

Lemma diagnostic_inj k k' : diagnostic k = diagnostic k' → k = k'.
Proof. destruct k, k'; simpl; intros Heq; (done || discriminate Heq). Qed.

Lemma present_contains k pw : present k pw = true ↔ contains pw (member k).
Proof. unfold present, contains. apply existsb_exists. Qed.

(** C3: [checkStrength] returns true exactly when the password has at least
    12 characters, a lowercase letter, an uppercase letter, a digit and a
    character that is neither a letter nor a digit. *)
Theorem checkStrength_true_iff pw :
  (checkStrength pw).1 = true ↔
  (12 ≤ String.length pw)%nat
  ∧ contains pw islower
  ∧ contains pw isupper
  ∧ contains pw isdigit
  ∧ contains pw (λ c, negb (isalpha c) && negb (isdigit c)).
Proof.
  rewrite <- (present_contains Lowercase), <- (present_contains Uppercase),
    <- (present_contains Digit), <- (present_contains Special).
  destruct (le_lt_dec 12 (String.length pw)) as [Hlen|Hlen].
  - rewrite (checkStrength_long pw Hlen). simpl. unfold all_present.
    rewrite !andb_true_iff. intuition.
  - rewrite (checkStrength_short pw Hlen). simpl.
    split; [discriminate | lia].
Qed.

(** C4, as amended: the score is
    min(100, min(40, floor(length * 3.33)) + 15 * k), with k the number of
    categories present; the length contribution is truncated, not
    rounded. *)
Theorem score_truncates_length_points pw :
  calculateStrengthPercentage pw =
  Z.min 100 (Z.min 40 (333 * Z.of_nat (String.length pw) / 100)
             + 15 * category_count pw).
Proof.
  unfold calculateStrengthPercentage, category_count, categories.
  pose proof (scan_present Lowercase pw) as Hl.
  pose proof (scan_present Uppercase pw) as Hu.
  pose proof (scan_present Digit pw) as Hd.
  pose proof (scan_present Special pw) as Hs.
  simpl in Hl, Hu, Hd, Hs. rewrite Hl, Hu, Hd, Hs.
  unfold length_points. simpl.
  destruct (present Lowercase pw), (present Uppercase pw),
    (present Digit pw), (present Special pw); simpl; f_equal; lia.
Qed.

(** C4, as stated, fails: twelve characters of all four categories score
    99 in the code and 100 with rounding. *)
Lemma score_rounding_refuted :
  calculateStrengthPercentage "Str0ng!Passw" ≠ score_with_rounding "Str0ng!Passw".
Proof. vm_compute. discriminate. Qed.

(** C5, as stated, fails: a short password that lacks an uppercase letter
    gets the length message only. *)
Lemma short_password_categories_unreported :
  present Uppercase "abc" = false ∧ ¬ reports_every_missing_category "abc".
Proof.
  split; [reflexivity|]. intros [_ Hall].
  specialize (Hall Uppercase eq_refl).
  apply list_elem_of_singleton in Hall. discriminate Hall.
Qed.

(** C5, as amended: a password that misses a category is rejected whatever
    its length; when it has 12 characters or more, every missing category
    has its own message among those printed; when it is shorter, the length
    message is the only one.  The four messages are pairwise different. *)
Theorem missing_category_reported pw k :
  present k pw = false →
  (checkStrength pw).1 = false
  ∧ ((12 ≤ String.length pw)%nat →
     ∀ k', present k' pw = false → diagnostic k' ∈ (checkStrength pw).2)
  ∧ ((String.length pw < 12)%nat → (checkStrength pw).2 = [length_error])
  ∧ (∀ k1 k2, diagnostic k1 = diagnostic k2 → k1 = k2).
Proof.
  intros Hmissing. repeat split.
  - destruct (le_lt_dec 12 (String.length pw)) as [Hlen|Hlen].
    + rewrite (checkStrength_long pw Hlen). simpl. unfold all_present.
      destruct k; rewrite Hmissing; by rewrite ?andb_false_r.
    + by rewrite (checkStrength_short pw Hlen).
  - intros Hlen k' Hk'. by apply checkStrength_diagnostics.
  - intros Hlen. by rewrite (checkStrength_short pw Hlen).
  - apply diagnostic_inj.
Qed.

Lemma missing_category_reported_witness :
  present Uppercase "strongpasswordd" = false
  ∧ (checkStrength "strongpasswordd").1 = false
  ∧ missing_upper ∈ (checkStrength "strongpasswordd").2.
Proof.
  split; [reflexivity|].
  destruct (missing_category_reported "strongpasswordd" Uppercase eq_refl)
    as (Hfalse & Hlong & _).
  split; [exact Hfalse|].
  apply (Hlong ltac:(simpl; lia) Uppercase eq_refl).
Defined.

End Strength.

(** ** Strings *)

Section Strings.
Import StdString Stream StoreSpec.
Local Arguments String.append !_ _ / : simpl nomatch.

Lemma length_append (a b : string) :
  String.length (a +:+ b) = (String.length a + String.length b)%nat.
Proof. induction a as [|c a IH]; simpl; [done | by rewrite IH]. Qed.

Lemma append_assoc (a b c : string) : (a +:+ b) +:+ c = a +:+ (b +:+ c).
Proof. induction a as [|x a IH]; simpl; [done | by rewrite IH]. Qed.

Lemma list_ascii_append (a b : string) :
  list_ascii_of_string (a +:+ b) = list_ascii_of_string a ++ list_ascii_of_string b.
Proof. induction a as [|x a IH]; simpl; [done | by rewrite IH]. Qed.

Lemma has_char_append c (a b : string) :
  has_char c (a +:+ b) = has_char c a || has_char c b.
Proof. unfold has_char. by rewrite list_ascii_append, existsb_app. Qed.

Lemma has_char_cons c x (s : string) :
  has_char c (String x s) = Ascii.eqb c x || has_char c s.
Proof. reflexivity. Qed.

Lemma substring_prefix (a b : string) :
  String.substring 0 (String.length a) (a +:+ b) = a.
Proof. induction a as [|c a IH]; simpl; [by destruct b | by rewrite IH]. Qed.

Lemma substring_all (a : string) : String.substring 0 (String.length a) a = a.
Proof. induction a as [|c a IH]; simpl; [done | by rewrite IH]. Qed.

Lemma substring_skip (a b : string) n :
  String.substring (String.length a) n (a +:+ b) = String.substring 0 n b.
Proof. induction a as [|c a IH]; simpl; [done | by rewrite IH]. Qed.

Lemma find_skip c (a b : string) p :
  find c (a +:+ b) (String.length a + p) =
  (λ q, String.length a + q)%nat <$> find c b p.
Proof.
  induction a as [|x a IH]; simpl.
  - by destruct (find c b p).
  - rewrite IH. by destruct (find c b p).
Qed.

(** [find] from the start and [cut] agree. *)
Lemma find_cut c (s : string) :
  match cut c s with
  | None => find c s 0 = None ∧ has_char c s = false
  | Some (before, after) =>
      s = before +:+ String c after
      ∧ has_char c before = false
      ∧ find c s 0 = Some (String.length before)
  end.
Proof.
  induction s as [|a s IH]; simpl; [done|].
  rewrite has_char_cons, (Ascii.eqb_sym c a).
  destruct (Ascii.eqb_spec a c) as [->|Hne]; simpl; [done|].
  destruct (cut c s) as [[before after]|]; simpl.
  - destruct IH as (-> & Hfree & ->). simpl.
    rewrite has_char_cons, Hfree, (Ascii.eqb_sym c a).
    by destruct (Ascii.eqb_spec a c).
  - by destruct IH as [-> ->].
Qed.

Lemma cut_append c (before after : string) :
  has_char c before = false →
  cut c (before +:+ String c after) = Some (before, after).
Proof.
  induction before as [|a before IH]; simpl; intros Hfree.
  - by rewrite Ascii.eqb_refl.
  - rewrite has_char_cons in Hfree. apply orb_false_iff in Hfree as [Ha Hfree].
    rewrite Ascii.eqb_sym, Ha, (IH Hfree). done.
Qed.



(** The lines of a text that starts with a full line. *)
Lemma getlines_line (line rest : string) :
  has_char newline line = false →
  getlines (line +:+ String newline rest) = line :: getlines rest.
Proof.
  induction line as [|c line IH]; simpl; intros Hfree.
  - done.
  - rewrite has_char_cons in Hfree. apply orb_false_iff in Hfree as [Hc Hfree].
    rewrite Ascii.eqb_sym, Hc, (IH Hfree). done.
Qed.

Lemma getlines_read_line c (s : string) :
  getlines (String c s) =
  (read_line (String c s)).1 :: getlines (read_line (String c s)).2.
Proof.
  revert c. induction s as [|c' s IH]; intros c; simpl.
  - by destruct (Ascii.eqb c newline).
  - destruct (Ascii.eqb c newline) eqn:Hc; [done|].
    specialize (IH c'). simpl in IH. rewrite IH.
    destruct (Ascii.eqb c' newline); [done|].
    by destruct (read_line s).
Qed.

(** [getlines] is the loop [while (getline(stream, line))]. *)
Lemma getlines_getline (stream : string) :
  getlines stream =
  match getline stream with
  | None => []
  | Some (line, rest) => line :: getlines rest
  end.
Proof.
  destruct stream as [|c s]; [done|].
  rewrite getlines_read_line. unfold getline.
  by destruct (read_line (String c s)).
Qed.

End Strings.

(** ** Credential store *)

Section Store.
Import StdString Stream Database StoreSpec.
Local Arguments String.append !_ _ / : simpl nomatch.

Lemma substr_in_range (s : string) pos n :
  (pos ≤ String.length s)%nat →
  substr s pos n =
  Ok (String.substring pos
        (match n with Some k => k | None => String.length s - pos end)%nat s).
Proof.
  intros Hpos. unfold substr.
  destruct (Nat.ltb_spec (String.length s) pos); [lia | done].
Qed.

Lemma find_first c (a b : string) :
  has_char c a = false → find c (a +:+ String c b) 0 = Some (String.length a).
Proof.
  intros Hfree. pose proof (find_cut c (a +:+ String c b)) as Hcut.
  rewrite (cut_append c a b Hfree) in Hcut. by destruct Hcut as (_ & _ & ->).
Qed.

Lemma find_absent c (s : string) : cut c s = None → find c s 0 = None.
Proof.
  intros Hcut. pose proof (find_cut c s) as Hfind.
  rewrite Hcut in Hfind. by destruct Hfind.
Qed.

Lemma find_after c (a b : string) :
  find c (a +:+ String c b) (String.length a + 1) =
  (λ q, String.length a + 1 + q)%nat <$> find c b 0.
Proof.
  induction a as [|x a IH]; simpl.
  - by destruct (find c b 0).
  - rewrite IH. by destruct (find c b 0).
Qed.

Lemma substr_middle (a b c : string) n :
  n = String.length b →
  substr (a +:+ b +:+ c) (String.length a) (Some n) = Ok b.
Proof.
  intros ->. rewrite substr_in_range by (rewrite length_append; lia).
  by rewrite substring_skip, substring_prefix.
Qed.

Lemma substr_head (a b : string) :
  substr (a +:+ b) 0 (Some (String.length a)) = Ok a.
Proof.
  rewrite substr_in_range by lia. by rewrite substring_prefix.
Qed.

Lemma substr_tail (a b : string) :
  substr (a +:+ b) (String.length a) None = Ok b.
Proof.
  rewrite substr_in_range by (rewrite length_append; lia).
  rewrite substring_skip, length_append.
  replace (String.length a + String.length b - String.length a)%nat
    with (String.length b) by lia.
  by rewrite substring_all.
Qed.

Lemma substr_second (a b c : string) x n :
  n = String.length b →
  substr (a +:+ String x (b +:+ c)) (String.length a + 1) (Some n) = Ok b.
Proof.
  intros ->.
  replace (a +:+ String x (b +:+ c)) with ((a +:+ String x EmptyString) +:+ b +:+ c)
    by (by rewrite append_assoc).
  replace (String.length a + 1)%nat with (String.length (a +:+ String x EmptyString))
    by (rewrite length_append; simpl; lia).
  by apply substr_middle.
Qed.

Lemma substr_third (a b c : string) x y :
  substr (a +:+ String x (b +:+ String y c))
    (String.length a + 1 + String.length b + 1) None = Ok c.
Proof.
  replace (a +:+ String x (b +:+ String y c))
    with ((a +:+ String x (b +:+ String y EmptyString)) +:+ c)
    by (rewrite append_assoc; simpl; by rewrite append_assoc).
  replace (String.length a + 1 + String.length b + 1)%nat
    with (String.length (a +:+ String x (b +:+ String y EmptyString)))
    by (rewrite !length_append; simpl; rewrite !length_append; simpl; lia).
  apply substr_tail.
Qed.

(** The line of a record whose username and hash have no comma is loaded
    as that record. *)
Lemma load_line_record (user hash salt : string) m :
  has_char "," user = false → has_char "," hash = false →
  load_line (user +:+ String "," (hash +:+ String "," salt)) m
  = Ok (<[user := (hash, salt)]> m).
Proof.
  intros Huser Hhash. unfold load_line.
  rewrite (find_first _ _ _ Huser), find_after, (find_first _ _ _ Hhash).
  cbn [fmap option_fmap option_map].
  rewrite substr_head, substr_second by lia.
  by rewrite substr_third.
Qed.

(** One step of the loop of [loadUsers] stores the record of the line, or
    skips the line when it is not a record; it does not throw. *)
Lemma load_line_parse (line : string) m :
  load_line line m =
  Ok (match parse_record line with Some e => store m e | None => m end).
Proof.
  unfold parse_record.
  pose proof (find_cut "," line) as Hcut1.
  destruct (cut "," line) as [[user rest]|] eqn:Hline; simpl.
  - destruct Hcut1 as (-> & Huser & _).
    pose proof (find_cut "," rest) as Hcut2.
    destruct (cut "," rest) as [[hash salt]|] eqn:Hrest; simpl.
    + destruct Hcut2 as (-> & Hhash & _). by apply load_line_record.
    + unfold load_line.
      rewrite (find_first _ _ _ Huser), find_after, (find_absent _ _ Hrest).
      done.
  - unfold load_line. by rewrite (find_absent _ _ Hline).
Qed.

Lemma load_lines_fold (lines : list string) : ∀ m,
  load_lines lines m = Ok (foldl store m (omap parse_record lines)).
Proof.
  induction lines as [|line lines IH]; intros m; simpl; [done|].
  rewrite load_line_parse. cbn [mbind result_bind].
  rewrite IH. by destruct (parse_record line).
Qed.

Lemma loadUsers_fold m content :
  loadUsers (State m (Some content)) =
  Ok (State (foldl store m (omap parse_record (getlines content))) (Some content)).
Proof. unfold loadUsers. simpl. by rewrite load_lines_fold. Qed.


Lemma parse_record_fields (line user hash salt : string) :
  parse_record line = Some (user, (hash, salt)) →
  line = user +:+ "," +:+ hash +:+ "," +:+ salt
  ∧ has_char "," user = false ∧ has_char "," hash = false.
Proof.
  unfold parse_record.
  pose proof (find_cut "," line) as Hcut1.
  destruct (cut "," line) as [[user' rest]|]; simpl; [|discriminate].
  pose proof (find_cut "," rest) as Hcut2.
  destruct (cut "," rest) as [[hash' salt']|]; simpl; [|discriminate].
  intros [= -> -> ->].
  destruct Hcut1 as (-> & Huser & _), Hcut2 as (-> & Hhash & _). done.
Qed.

Lemma write_entry_line e :
  write_entry e = record_line e +:+ String newline EmptyString.
Proof.
  unfold write_entry, record_line. simpl.
  rewrite append_assoc. simpl. by rewrite append_assoc.
Qed.

Lemma newline_free_line e : storable e → has_char newline (record_line e) = false.
Proof.
  intros (_ & Hu & _ & Hh & Hs). unfold record_line.
  rewrite has_char_append, has_char_cons, has_char_append, has_char_cons.
  by rewrite Hu, Hh, Hs.
Qed.

Lemma getlines_write_entries es :
  Forall storable es → getlines (write_entries es) = record_line <$> es.
Proof.
  induction 1 as [|e es He Hes IH]; simpl; [done|].
  rewrite write_entry_line, append_assoc. simpl.
  by rewrite (getlines_line _ _ (newline_free_line e He)), IH.
Qed.

Lemma parse_record_line e : storable e → parse_record (record_line e) = Some e.
Proof.
  destruct e as [user [hash salt]]. intros (Hu & _ & Hh & _).
  unfold parse_record, record_line. simpl in *.
  rewrite (cut_append _ _ _ Hu). simpl.
  by rewrite (cut_append _ _ _ Hh).
Qed.

Lemma omap_parse_lines es :
  Forall storable es → omap parse_record (record_line <$> es) = es.
Proof.
  induction 1 as [|e es He Hes IH]; csimpl; [done|].
  by rewrite (parse_record_line e He), IH.
Qed.

Lemma foldl_store_reverse (l : list (string * credentials)) :
  foldl store ∅ (reverse l) = list_to_map l.
Proof.
  induction l as [|e l IH]; [done|].
  by rewrite reverse_cons, foldl_app, IH.
Qed.

Lemma foldl_store_absent es : ∀ m (u : string),
  (∀ e, e ∈ es → e.1 ≠ u) → foldl store m es !! u = m !! u.
Proof.
  induction es as [|e es IH]; intros m u Hfresh; simpl; [done|].
  rewrite IH by (intros e' He'; apply Hfresh; by right).
  unfold store. apply lookup_insert_ne, Hfresh. by left.
Qed.

Lemma entries_storable (m : gmap string credentials) :
  (∀ u c, m !! u = Some c → storable (u, c)) → Forall storable (entries m).
Proof.
  intros Hm. apply Forall_forall. intros [u c] Hin.
  apply Hm, elem_of_map_to_list.
  unfold entries in Hin. by rewrite merge_sort_Permutation in Hin.
Qed.

Lemma list_to_map_entries (m : gmap string credentials) :
  foldl store ∅ (entries m) = m.
Proof.
  rewrite <- (reverse_involutive (entries m)), foldl_store_reverse.
  rewrite <- (list_to_map_to_list m) at 2.
  assert (reverse (entries m) ≡ₚ map_to_list m) as Hperm.
  { rewrite reverse_Permutation. apply merge_sort_Permutation. }
  apply list_to_map_proper; [|done].
  rewrite Hperm. apply NoDup_fst_map_to_list.
Qed.

(** Loading what [saveUsers] wrote, into a fresh store. *)
Lemma load_saved (m : gmap string credentials) disk :
  (∀ u c, m !! u = Some c → storable (u, c)) →
  loadUsers (fresh (file (saveUsers (State m disk))))
  = Ok (State m (file (saveUsers (State m disk)))).
Proof.
  intros Hm. unfold saveUsers, fresh. simpl.
  rewrite loadUsers_fold.
  rewrite (getlines_write_entries _ (entries_storable m Hm)).
  rewrite (omap_parse_lines _ (entries_storable m Hm)).
  by rewrite list_to_map_entries.
Qed.



(** C7, as stated, fails: [addUser] accepts a hash with a comma in it, and
    the file then reads back with the comma as a separator. *)
Lemma comma_in_hash_not_restored :
  ¬ survives_save_and_load (users (addUser "u" "h,x" "s" (fresh None)).2).
Proof.
  intros (st & Hload & Husers).
  vm_compute in Hload. injection Hload as <-.
  apply (f_equal (λ m : gmap string credentials, m !! "u")) in Husers.
  vm_compute in Husers. discriminate Husers.
Qed.

(** C7, as amended: a mapping whose usernames and hashes have no comma and
    no newline, and whose salts have no newline, is the same after it has
    been saved and loaded into a fresh store. *)
Theorem save_then_load (m : gmap string credentials) :
  (∀ u c, m !! u = Some c → storable (u, c)) →
  survives_save_and_load m.
Proof.
  intros Hm. eexists. split; [by apply load_saved | done].
Qed.

Lemma save_then_load_witness :
  survives_save_and_load {[ "alice" := ("aa", "bb") ]}.
Proof.
  apply save_then_load. intros u c Hlookup.
  apply lookup_singleton_Some in Hlookup as [<- <-]. by vm_compute.
Defined.



(** C10: when several lines of the file are records of the same username,
    loading succeeds and the username is mapped to the hash and the salt of
    the last of them. *)
Theorem loadUsers_last_record_wins m content pre line post (u h s : string) :
  getlines content = pre ++ line :: post →
  parse_record line = Some (u, (h, s)) →
  (∀ later c, later ∈ post → parse_record later ≠ Some (u, c)) →
  ∃ st, loadUsers (State m (Some content)) = Ok st
        ∧ getCredentials u st = Some (h, s).
Proof.
  intros Hlines Hline Hlast. eexists. split; [apply loadUsers_fold|].
  unfold getCredentials. simpl.
  rewrite Hlines, omap_app, foldl_app. csimpl. rewrite Hline. simpl.
  rewrite foldl_store_absent.
  - apply lookup_insert_eq.
  - intros [u' c] Hin Heq. simpl in Heq. subst u'.
    apply list_elem_of_omap in Hin as (later & Hlater & Hparse).
    by apply (Hlast later c).
Qed.

Lemma loadUsers_last_record_wins_witness :
  let content := "bob,h1,s1" +:+ String newline ("bob,h3,s3" +:+ String newline EmptyString) in
  ∃ st, loadUsers (fresh (Some content)) = Ok st
        ∧ getCredentials "bob" st = Some ("h3", "s3")
        ∧ userCount st = 1.
Proof.
  intros content.
  destruct (loadUsers_last_record_wins ∅ content ["bob,h1,s1"] "bob,h3,s3" []
              "bob" "h3" "s3" eq_refl eq_refl) as (st & Hload & Hget).
  { intros later c Hin. by apply elem_of_nil in Hin. }
  exists st. split; [exact Hload|]. split; [exact Hget|].
  vm_compute in Hload. injection Hload as <-. reflexivity.
Defined.

End Store.

(** ** Password hasher *)

Section Hasher.
Import StdString PasswordHasher.
Context `{Sodium}.
Local Arguments String.append !_ _ / : simpl nomatch.

(** Two hexadecimal digits printed from a byte read back as that byte. *)
Lemma stoi16_printf_02x (b : byte) :
  stoi16 (printf_02x b) = Ok (Z.of_N (Byte.to_N b)).
Proof. destruct b; vm_compute; reflexivity. Qed.

Lemma to_uchar_of_byte (b : byte) : to_uchar (Z.of_N (Byte.to_N b)) = b.
Proof. destruct b; vm_compute; reflexivity. Qed.

Lemma length_to_hex (buf : list byte) :
  String.length (to_hex buf) = (2 * List.length buf)%nat.
Proof. induction buf as [|b buf IH]; simpl; [done | rewrite IH; lia]. Qed.

Lemma decode_piece_at (before after : string) (b : byte) i :
  String.length before = (i * 2)%nat →
  decode_piece (before +:+ printf_02x b +:+ after) i = Ok b.
Proof.
  intros Hlen. unfold decode_piece. rewrite <- Hlen.
  rewrite (substr_middle before (printf_02x b) after 2 eq_refl).
  cbn [mbind result_bind]. rewrite stoi16_printf_02x.
  cbn [mbind result_bind]. by rewrite to_uchar_of_byte.
Qed.

Lemma decode_pieces (buf : list byte) : ∀ (before : string) i,
  String.length before = (i * 2)%nat →
  mapM (decode_piece (before +:+ to_hex buf)) (seq i (List.length buf)) = Ok buf.
Proof.
  induction buf as [|b buf IH]; intros before i Hlen; [done|].
  cbn [List.length seq mapM to_hex].
  rewrite (decode_piece_at before (to_hex buf) b i Hlen).
  cbn [mbind result_bind].
  rewrite <- append_assoc, IH; [done|].
  rewrite length_append, Hlen. simpl. lia.
Qed.

Lemma decode_salt_to_hex (buf : list byte) :
  List.length buf = crypto_pwhash_SALTBYTES →
  decode_salt (to_hex buf) = Ok buf.
Proof.
  unfold decode_salt. intros <-. apply (decode_pieces buf EmptyString 0%nat eq_refl).
Qed.

Lemma decode_generated_salt entropy :
  decode_salt (generateSalt entropy) = Ok (randombytes_buf entropy).
Proof.
  apply decode_salt_to_hex. unfold randombytes_buf.
  by rewrite length_fmap, length_seq.
Qed.

Lemma verifyPassword_true_iff (p h s : string) :
  verifyPassword p h s = true ↔ hashPassword p s = Ok h.
Proof.
  unfold verifyPassword. destruct (hashPassword p s) as [computed|e].
  - rewrite bool_decide_eq_true. naive_solver.
  - naive_solver.
Qed.

(** C1: for a salt that [generateSalt] produced, when the key derivation
    succeeds, [hashPassword] returns a hash and [verifyPassword] accepts the
    same password with that hash and that salt. *)
Theorem verify_after_hash (entropy : nat → byte) (p : string) :
  is_Some (crypto_pwhash 32 p (randombytes_buf entropy)) →
  ∃ h, hashPassword p (generateSalt entropy) = Ok h
       ∧ verifyPassword p h (generateSalt entropy) = true.
Proof.
  intros [digest Hdigest]. exists (to_hex digest).
  assert (hashPassword p (generateSalt entropy) = Ok (to_hex digest)) as Hhash.
  { unfold hashPassword. rewrite decode_generated_salt.
    cbn [mbind result_bind]. by rewrite Hdigest. }
  split; [exact Hhash | by apply verifyPassword_true_iff].
Qed.

(** C6: whatever [hashPassword] throws, for any password, stored hash and
    salt, [verifyPassword] returns false. *)
Theorem verifyPassword_fails_closed (p h s : string) (e : exception) :
  hashPassword p s = Throw e → verifyPassword p h s = false.
Proof. intros Hthrow. unfold verifyPassword. by rewrite Hthrow. Qed.

Lemma mapM_throw {A B} (f : A → result B) (l : list A) x e :
  x ∈ l → f x = Throw e → ∃ e', mapM f l = Throw e'.
Proof.
  intros Hin Hx. induction l as [|a l IH]; [by apply elem_of_nil in Hin|].
  cbn [mapM]. destruct (f a) as [b|e1] eqn:Ha; [|by exists e1].
  cbn [mbind result_bind].
  apply elem_of_cons in Hin as [->|Hin]; [congruence|].
  destruct (IH Hin) as [e' ->]. by exists e'.
Qed.

Lemma substring_at_end (s : string) n :
  String.substring (String.length s) n s = EmptyString.
Proof. induction s as [|c s IH]; simpl; [by destruct n | done]. Qed.

(** A salt too short for the last byte makes [hashPassword] throw. *)
Lemma hashPassword_short_salt (p s : string) :
  (String.length s + 1 < 2 * crypto_pwhash_SALTBYTES)%nat →
  ∃ e, hashPassword p s = Throw e.
Proof.
  intros Hshort. unfold hashPassword, decode_salt.
  assert (∃ e, decode_piece s (crypto_pwhash_SALTBYTES - 1) = Throw e) as [e He].
  { unfold decode_piece, substr.
    destruct (Nat.ltb_spec (String.length s) ((crypto_pwhash_SALTBYTES - 1) * 2))
      as [|Hle]; [by eexists|].
    replace ((crypto_pwhash_SALTBYTES - 1) * 2)%nat with (String.length s) by lia.
    rewrite substring_at_end. by eexists. }
  destruct (mapM_throw (decode_piece s) (seq 0 crypto_pwhash_SALTBYTES)
              (crypto_pwhash_SALTBYTES - 1)%nat e) as [e' ->];
    [apply elem_of_seq; lia | exact He | by exists e'].
Qed.

Lemma verifyPassword_short_salt (p h s : string) :
  (String.length s + 1 < 2 * crypto_pwhash_SALTBYTES)%nat →
  verifyPassword p h s = false.
Proof.
  intros Hshort. destruct (hashPassword_short_salt p s Hshort) as [e He].
  unfold verifyPassword. by rewrite He.
Qed.

End Hasher.

Lemma verify_after_hash_witness :
  ∃ h, PasswordHasher.hashPassword (H := Examples.working_sodium) "Str0ng!Passw0rd"
         (PasswordHasher.generateSalt (H := Examples.working_sodium) (λ _, Byte.x2a)) = Ok h
       ∧ PasswordHasher.verifyPassword (H := Examples.working_sodium) "Str0ng!Passw0rd" h
           (PasswordHasher.generateSalt (H := Examples.working_sodium) (λ _, Byte.x2a)) = true.
Proof.
  apply (verify_after_hash (H := Examples.working_sodium)). by eexists.
Defined.

Lemma verifyPassword_fails_closed_witness :
  PasswordHasher.hashPassword (H := Examples.working_sodium) "Str0ng!Passw0rd" "zz"
    = Throw (invalid_argument "stoi")
  ∧ PasswordHasher.verifyPassword (H := Examples.working_sodium)
      "Str0ng!Passw0rd" "00" "zz" = false.
Proof.
  split; [reflexivity|].
  apply (verifyPassword_fails_closed (H := Examples.working_sodium) _ _ _
           (invalid_argument "stoi")).
  reflexivity.
Defined.

(** ** Registration *)

Section Registration.
Import PasswordHasher Workflow.

(** When the key derivation fails, the end of [registrationScreen] throws
    and the store is left as it was. *)
Lemma create_account_throws `{Sodium} (w : world) (username password : string) :
  crypto_pwhash 32 password (randombytes_buf (entropy w)) = None →
  ∃ w', create_account username password w
        = Thrown (runtime_error "Hashing failed") w'
        ∧ db w' = db w.
Proof.
  intros Hfail. unfold create_account, Workflow.generateSalt, lift, hashPassword.
  unfold mbind at 1 2, action_bind. cbn beta iota.
  rewrite decode_generated_salt. unfold mbind at 1, result_bind.
  rewrite Hfail. by eexists.
Qed.

(** C9 fails on the code: with a key derivation that fails, a registration
    that reaches the hashing step ends [main] with the exception
    [runtime_error "Hashing failed"], whatever the fuel from 2 on.  Control
    does not come back to the menu: the rest of the input is never read. *)
Theorem registration_hashing_failure_leaves_main (fuel : nat) :
  ∃ w, main (H := Examples.exhausted_sodium) (S (S fuel)) Examples.alice_registers
       = Thrown (runtime_error "Hashing failed") w
       ∧ db w = Database.fresh None
       ∧ cin w = Examples.enter +:+ "3" +:+ Examples.enter.
Proof. eexists. split; [vm_compute; reflexivity | split; reflexivity]. Qed.

(** The same session with a key derivation that works: the account is
    created, the menu comes back and [main] returns 0. *)
Lemma registration_with_working_hashing (fuel : nat) :
  ∃ w, main (H := Examples.working_sodium) (S (S fuel)) Examples.alice_registers
       = Returned 0 w
       ∧ Database.userExists "alice" (db w) = true
       ∧ cin w = EmptyString.
Proof. eexists. split; [vm_compute; reflexivity | split; reflexivity]. Qed.

End Registration.

(** ** More on the strength evaluator *)

Section StrengthMore.
Import CType StandardPasswordChecker StrengthSpec Vocabulary.
Local Arguments String.append !_ _ / : simpl nomatch.

(** The score with the flags of the loop replaced by the categories. *)
Lemma score_by_categories pw :
  calculateStrengthPercentage pw =
  Z.min 100
    (bonus (present Special pw)
       (bonus (present Digit pw)
          (bonus (present Uppercase pw)
             (bonus (present Lowercase pw)
                (Z.min 40 (length_points (String.length pw))))))).
Proof.
  unfold calculateStrengthPercentage.
  pose proof (scan_present Lowercase pw) as Hl.
  pose proof (scan_present Uppercase pw) as Hu.
  pose proof (scan_present Digit pw) as Hd.
  pose proof (scan_present Special pw) as Hs.
  simpl in Hl, Hu, Hd, Hs. by rewrite Hl, Hu, Hd, Hs.
Qed.

Lemma present_append k (a b : string) :
  present k (a +:+ b) = present k a || present k b.
Proof. unfold present. by rewrite list_ascii_append, existsb_app. Qed.

Lemma accepted_iff pw :
  (checkStrength pw).1 = true ↔
  (12 ≤ String.length pw)%nat ∧ all_present pw = true.
Proof.
  destruct (le_lt_dec 12 (String.length pw)) as [Hlen|Hlen].
  - rewrite (checkStrength_long pw Hlen). simpl.
    split; [by intros -> | by intros [_ ->]].
  - rewrite (checkStrength_short pw Hlen). simpl.
    split; [discriminate | lia].
Qed.

(** X1: The score is a percentage. *)
Theorem score_range pw : 0 ≤ calculateStrengthPercentage pw ≤ 100.
Proof.
  rewrite score_by_categories. unfold bonus, length_points.
  destruct (present Special pw), (present Digit pw),
    (present Uppercase pw), (present Lowercase pw);
    Z.div_mod_to_equations; lia.
Qed.

(** X2: A password that [checkStrength] accepts scores 99 when it has exactly 12
    characters and 100 otherwise: in [setPassword] the warning for a score
    under 70 is never printed after an accepted password. *)
Theorem accepted_password_score pw :
  (checkStrength pw).1 = true →
  calculateStrengthPercentage pw =
  if (String.length pw =? 12)%nat then 99 else 100.
Proof.
  intros [Hlen Hall]%accepted_iff. rewrite score_by_categories.
  unfold all_present in Hall. apply andb_true_iff in Hall as [Hall ->].
  apply andb_true_iff in Hall as [Hall ->].
  apply andb_true_iff in Hall as [-> ->].
  unfold bonus, length_points.
  destruct (Nat.eqb_spec (String.length pw) 12) as [->|Hne]; [reflexivity|].
  Z.div_mod_to_equations. lia.
Qed.

Lemma accepted_password_score_witness :
  (checkStrength "Str0ng!Passw0rd").1 = true
  ∧ calculateStrengthPercentage "Str0ng!Passw0rd" = 100.
Proof.
  split; [reflexivity|].
  apply (accepted_password_score "Str0ng!Passw0rd"). reflexivity.
Defined.

(** X3: Typing more characters never lowers the score. *)
Theorem score_grows_with_suffix (pw more : string) :
  calculateStrengthPercentage pw ≤ calculateStrengthPercentage (pw +:+ more).
Proof.
  rewrite !score_by_categories, !present_append, length_append.
  unfold bonus, length_points. rewrite Nat2Z.inj_add.
  pose proof (Nat2Z.is_nonneg (String.length pw)).
  pose proof (Nat2Z.is_nonneg (String.length more)).
  destruct (present Special pw), (present Digit pw),
    (present Uppercase pw), (present Lowercase pw),
    (present Special more), (present Digit more),
    (present Uppercase more), (present Lowercase more); simpl;
    Z.div_mod_to_equations; lia.
Qed.

(** X4: [checkStrength] never rejects without saying why: a rejection prints at
    least one message and only error messages; an acceptance prints the
    success message alone. *)
Theorem checkStrength_explains pw :
  match checkStrength pw with
  | (true, out) => out = [Success "Valid password!"]
  | (false, out) => out ≠ [] ∧ forallb is_error out = true
  end.
Proof.
  destruct (le_lt_dec 12 (String.length pw)) as [Hlen|Hlen].
  - rewrite (checkStrength_long pw Hlen). unfold all_present.
    destruct (present Lowercase pw), (present Uppercase pw),
      (present Digit pw), (present Special pw); simpl; done.
  - by rewrite (checkStrength_short pw Hlen).
Qed.

End StrengthMore.

(** ** More on the password hasher *)

Section HasherMore.
Import StdString PasswordHasher StoreSpec Vocabulary.
Context `{Sodium}.
Local Arguments String.append !_ _ / : simpl nomatch.

Lemma all_chars_append P (a b : string) :
  all_chars P (a +:+ b) = all_chars P a && all_chars P b.
Proof. unfold all_chars. by rewrite list_ascii_append, forallb_app. Qed.

Lemma all_chars_exclude P x (s : string) :
  (∀ c, P c = true → Ascii.eqb x c = false) →
  all_chars P s = true → has_char x s = false.
Proof.
  intros Hout. unfold all_chars, has_char.
  induction s as [|c s IH]; [done|].
  cbn [list_ascii_of_string forallb existsb].
  intros [Hc Hs]%andb_true_iff. by rewrite (Hout c Hc), (IH Hs).
Qed.

Lemma printf_02x_hex (b : byte) : all_chars is_lower_hex (printf_02x b) = true.
Proof. destruct b; vm_compute; reflexivity. Qed.

Lemma to_hex_hex (buf : list byte) : all_chars is_lower_hex (to_hex buf) = true.
Proof.
  induction buf as [|b buf IH]; [done|].
  cbn [to_hex]. by rewrite all_chars_append, printf_02x_hex, IH.
Qed.

Lemma lower_hex_alnum c : is_lower_hex c = true → CType.isalnum c = true.
Proof.
  unfold is_lower_hex, CType.isalnum, CType.isalpha, CType.islower, CType.between.
  intros [Hd|Hx]%orb_true_iff; [by rewrite Hd, orb_true_r|].
  apply andb_true_iff in Hx as [Hlo Hhi]. apply N.leb_le in Hlo, Hhi.
  apply orb_true_iff. left. apply orb_true_iff. left.
  apply andb_true_iff. split; apply N.leb_le; lia.
Qed.

Lemma alnum_not c x :
  CType.isalnum x = false → CType.isalnum c = true → Ascii.eqb x c = false.
Proof.
  intros Hx Hc. destruct (Ascii.eqb_spec x c) as [->|]; [congruence | done].
Qed.

(** What the hex printing loop writes: two characters per byte, each a digit
    or a letter from a to f, so never a comma and never a newline. *)
Lemma to_hex_shape (buf : list byte) :
  String.length (to_hex buf) = (2 * List.length buf)%nat
  ∧ all_chars is_lower_hex (to_hex buf) = true
  ∧ has_char "," (to_hex buf) = false
  ∧ has_char Stream.newline (to_hex buf) = false.
Proof.
  split; [apply length_to_hex|]. split; [apply to_hex_hex|].
  split; apply (all_chars_exclude is_lower_hex); try apply to_hex_hex;
    intros c Hc%lower_hex_alnum; by apply alnum_not.
Qed.

(** X5: A salt from [generateSalt] has twice as many characters as the salt has
    bytes, all of them hex digits. *)
Theorem generateSalt_shape (entropy : nat → byte) :
  String.length (generateSalt entropy) = (2 * crypto_pwhash_SALTBYTES)%nat
  ∧ all_chars is_lower_hex (generateSalt entropy) = true.
Proof.
  unfold generateSalt, randombytes_buf.
  rewrite length_to_hex, length_fmap, length_seq. split; [done | apply to_hex_hex].
Qed.

(** X6: Printing a buffer of the size of a salt in hex and decoding it as
    [hashPassword] does gives the buffer back. *)
Theorem salt_hex_round_trip (buf : list byte) :
  List.length buf = crypto_pwhash_SALTBYTES →
  decode_salt (to_hex buf) = Ok buf.
Proof. apply decode_salt_to_hex. Qed.

Lemma substring_within (s extra : string) : ∀ pos n,
  (pos + n ≤ String.length s)%nat →
  String.substring pos n (s +:+ extra) = String.substring pos n s.
Proof.
  induction s as [|c s IH]; intros pos n Hin; simpl in Hin.
  - assert (pos = 0 ∧ n = 0)%nat as [-> ->] by lia. by destruct extra.
  - destruct pos as [|pos], n as [|n]; simpl; try done.
    + rewrite IH by lia. done.
    + apply IH. lia.
    + apply IH. lia.
Qed.

Lemma decode_piece_within (s extra : string) i :
  (i * 2 + 2 ≤ String.length s)%nat →
  decode_piece (s +:+ extra) i = decode_piece s i.
Proof.
  intros Hin. unfold decode_piece, substr. rewrite length_append.
  destruct (Nat.ltb_spec (String.length s + String.length extra) (i * 2)); [lia|].
  destruct (Nat.ltb_spec (String.length s) (i * 2)); [lia|].
  by rewrite substring_within by lia.
Qed.

Lemma mapM_result_ext {A B} (f g : A → result B) (l : list A) :
  (∀ x, x ∈ l → f x = g x) → mapM f l = mapM g l.
Proof.
  induction l as [|a l IH]; intros Hext; [done|].
  cbn [mapM]. rewrite (Hext a) by (by left).
  rewrite IH; [done|]. intros x Hx. apply Hext. by right.
Qed.

(** X7: [hashPassword] reads the first [2 * SALTBYTES] characters of the salt
    only: what follows them changes nothing. *)
Theorem hashPassword_ignores_salt_tail (p s extra : string) :
  (2 * crypto_pwhash_SALTBYTES ≤ String.length s)%nat →
  hashPassword p (s +:+ extra) = hashPassword p s.
Proof.
  intros Hlong. unfold hashPassword, decode_salt.
  rewrite (mapM_result_ext (decode_piece (s +:+ extra)) (decode_piece s)); [done|].
  intros i Hi%elem_of_seq. apply decode_piece_within. lia.
Qed.

Lemma decode_piece_exception (s : string) i e :
  decode_piece s i = Throw e → from_salt e = true.
Proof.
  unfold decode_piece, substr, stoi16.
  destruct (_ <? _)%nat; [by intros [= <-]|].
  cbn [mbind result_bind].
  destruct (strtol16 _); [|by intros [= <-]].
  destruct (_ || _); [by intros [= <-] | discriminate].
Qed.

Lemma mapM_exception {A B} (f : A → result B) (P : exception → Prop) (l : list A) e :
  (∀ x e', f x = Throw e' → P e') → mapM f l = Throw e → P e.
Proof.
  intros Hf. induction l as [|a l IH]; [discriminate|].
  cbn [mapM]. destruct (f a) as [b|e1] eqn:Ha.
  - cbn [mbind result_bind]. destruct (mapM f l) as [bs|e2]; [discriminate|].
    cbn [mbind result_bind]. intros [= <-]. by apply IH.
  - cbn [mbind result_bind]. intros [= <-]. by apply (Hf a).
Qed.

Lemma decode_salt_exception (s : string) e :
  decode_salt s = Throw e → from_salt e = true.
Proof.
  apply (mapM_exception (decode_piece s) (λ e, from_salt e = true)).
  intros i e1. apply decode_piece_exception.
Qed.

Lemma decode_salt_short (s : string) :
  (String.length s + 1 < 2 * crypto_pwhash_SALTBYTES)%nat →
  ∃ e, decode_salt s = Throw e.
Proof.
  intros Hshort.
  assert (∃ e, decode_piece s (crypto_pwhash_SALTBYTES - 1) = Throw e) as [e He].
  { unfold decode_piece, substr.
    destruct (Nat.ltb_spec (String.length s) ((crypto_pwhash_SALTBYTES - 1) * 2))
      as [|Hle]; [by eexists|].
    replace ((crypto_pwhash_SALTBYTES - 1) * 2)%nat with (String.length s) by lia.
    rewrite substring_at_end. by eexists. }
  apply (mapM_throw (decode_piece s) (seq 0 crypto_pwhash_SALTBYTES)
           (crypto_pwhash_SALTBYTES - 1)%nat e); [apply elem_of_seq; lia | exact He].
Qed.

(** X8: [hashPassword] throws [runtime_error] only when the key derivation
    fails; a salt it cannot decode gives the exception of [substr] or of
    [stoi], and the key derivation is not reached. *)
Theorem hashPassword_exceptions (p s : string) (e : exception) :
  hashPassword p s = Throw e →
  match decode_salt s with
  | Ok salt => crypto_pwhash 32 p salt = None ∧ e = runtime_error "Hashing failed"
  | Throw e1 => e = e1 ∧ from_salt e = true
  end.
Proof.
  unfold hashPassword. destruct (decode_salt s) as [salt|e1] eqn:Hdecode.
  - cbn [mbind result_bind]. destruct (crypto_pwhash 32 p salt); [discriminate|].
    by intros [= <-].
  - cbn [mbind result_bind]. intros [= <-]. split; [done|].
    by apply (decode_salt_exception s).
Qed.

(** X9: A salt with fewer than [2 * SALTBYTES - 1] characters: [hashPassword]
    throws before the key derivation and [verifyPassword] is false, whatever
    the password and the hash. *)
Theorem short_salt_rejected (p h s : string) :
  (String.length s + 1 < 2 * crypto_pwhash_SALTBYTES)%nat →
  (∃ e, hashPassword p s = Throw e ∧ from_salt e = true)
  ∧ verifyPassword p h s = false.
Proof.
  intros Hshort. destruct (decode_salt_short s Hshort) as [e He].
  assert (hashPassword p s = Throw e) as Hthrow.
  { unfold hashPassword. by rewrite He. }
  split.
  - exists e. split; [done | by apply (decode_salt_exception s)].
  - unfold verifyPassword. by rewrite Hthrow.
Qed.

(** X10: A hash that [hashPassword] returns is made of hex digits: it has no
    comma and no newline. *)
Theorem hashPassword_hex (p s h : string) :
  hashPassword p s = Ok h →
  all_chars is_lower_hex h = true
  ∧ has_char "," h = false ∧ has_char Stream.newline h = false.
Proof.
  unfold hashPassword. destruct (decode_salt s) as [salt|]; [|discriminate].
  cbn [mbind result_bind].
  destruct (crypto_pwhash 32 p salt) as [digest|]; [|discriminate].
  intros [= <-]. split; [apply to_hex_hex|].
  split; apply (all_chars_exclude is_lower_hex); try apply to_hex_hex;
    intros c Hc%lower_hex_alnum; by apply alnum_not.
Qed.

End HasherMore.

(** ** More on the credential store *)

Section StoreMore.
Import StdString Stream Database StoreSpec Vocabulary.
Local Arguments String.append !_ _ / : simpl nomatch.

Lemma userExists_addUser (st : state) (u h s : string) :
  userExists u (addUser u h s st).2 = true.
Proof.
  unfold addUser. destruct (userExists u st) eqn:Hexists; [done|].
  unfold userExists. simpl. rewrite lookup_insert_eq. by apply bool_decide_eq_true.
Qed.

(** X11: Once a username has been added, whether the call succeeded or not, a
    further [addUser] with that username returns false and changes
    nothing. *)
Theorem addUser_again (st : state) (u h s h' s' : string) :
  addUser u h' s' (addUser u h s st).2 = (false, (addUser u h s st).2).
Proof.
  unfold addUser at 1. by rewrite userExists_addUser.
Qed.

(** X12: [userCount] grows by one when [addUser] succeeds and stays the same when
    it fails. *)
Theorem userCount_addUser (st : state) (u h s : string) :
  userCount (addUser u h s st).2 =
  userCount st + (if (addUser u h s st).1 then 1 else 0).
Proof.
  unfold addUser, userCount, userExists.
  destruct (users st !! u) as [c|] eqn:Hlookup.
  - rewrite bool_decide_eq_true_2 by eauto. simpl. lia.
  - rewrite bool_decide_eq_false_2 by (by intros [? ?]). simpl.
    rewrite map_size_insert_None by done. lia.
Qed.

Lemma foldl_store_keeps es : ∀ (m : gmap string credentials) u,
  is_Some (m !! u) → is_Some (foldl store m es !! u).
Proof.
  induction es as [|e es IH]; intros m u Hu; simpl; [done|].
  apply IH. unfold store. destruct (decide (e.1 = u)) as [->|Hne].
  - rewrite lookup_insert_eq. eauto.
  - by rewrite lookup_insert_ne.
Qed.

(** X13: [loadUsers] does not clear the store and does not write the file: every
    user in the store before the call is in it afterwards, and a user that
    no line of the file names keeps its credentials. *)
Theorem loadUsers_keeps_users (st st' : state) :
  loadUsers st = Ok st' →
  file st' = file st
  ∧ (∀ u, userExists u st = true → userExists u st' = true)
  ∧ (∀ u content, file st = Some content →
       (∀ line c, line ∈ getlines content → parse_record line ≠ Some (u, c)) →
       getCredentials u st' = getCredentials u st).
Proof.
  destruct st as [m [content|]].
  - rewrite loadUsers_fold. intros [= <-]. simpl. split; [done|]. split.
    + intros u Hu. unfold userExists in *. simpl in *.
      apply bool_decide_eq_true. apply bool_decide_eq_true in Hu.
      by apply foldl_store_keeps.
    + intros u content' [= <-] Hnone. unfold getCredentials. simpl.
      apply foldl_store_absent. intros [u' c] Hin Heq. simpl in Heq. subst u'.
      apply list_elem_of_omap in Hin as (line & Hline & Hparse).
      by apply (Hnone line c).
  - intros [= <-]. split; [done|]. split; [done|]. intros u content Hfile. discriminate Hfile.
Qed.

Lemma getlines_newline_free (text : string) :
  Forall (λ line, has_char newline line = false) (getlines text).
Proof.
  induction text as [|c text IH]; simpl; [constructor|].
  destruct (Ascii.eqb c newline) eqn:Hc; [by constructor|].
  destruct (getlines text) as [|line more].
  - constructor; [|constructor]. rewrite has_char_cons, Ascii.eqb_sym, Hc. done.
  - inversion IH as [|? ? Hline Hmore]; subst. constructor; [|done].
    by rewrite has_char_cons, Ascii.eqb_sym, Hc, Hline.
Qed.

Lemma parse_record_storable (line : string) e :
  has_char newline line = false → parse_record line = Some e → storable e.
Proof.
  destruct e as [u [h s]]. intros Hfree Hparse.
  destruct (parse_record_fields _ _ _ _ Hparse) as (-> & Hu & Hh).
  simpl in Hfree.
  rewrite has_char_append, has_char_cons, has_char_append, has_char_cons in Hfree.
  repeat (apply orb_false_iff in Hfree as [? Hfree]).
  by repeat split.
Qed.

Lemma foldl_store_storable es : ∀ m,
  all_storable m → Forall storable es → all_storable (foldl store m es).
Proof.
  induction es as [|e es IH]; intros m Hm Hes; simpl; [done|].
  inversion Hes as [|? ? He Hes']; subst. apply IH; [|done].
  intros u c. unfold store. destruct (decide (e.1 = u)) as [<-|Hne].
  - rewrite lookup_insert_eq. intros [= <-]. by destruct e.
  - rewrite lookup_insert_ne by done. apply Hm.
Qed.

Lemma loaded_storable m content :
  all_storable m →
  all_storable (foldl store m (omap parse_record (getlines content))).
Proof.
  intros Hm. apply foldl_store_storable; [done|].
  apply Forall_forall. intros e (line & Hline & Hparse)%list_elem_of_omap.
  apply (parse_record_storable line); [|done].
  pose proof (getlines_newline_free content) as Hfree.
  rewrite Forall_forall in Hfree. by apply Hfree.
Qed.

(** X14: Whatever the file holds, the records [loadUsers] puts into an empty
    store have no comma in the username or the hash and no newline in any
    field: they are records the file format can hold. *)
Theorem loaded_records_storable (disk : option string) (st : state) :
  loadUsers (fresh disk) = Ok st →
  ∀ u c, getCredentials u st = Some c → storable (u, c).
Proof.
  destruct disk as [content|]; unfold fresh.
  - rewrite loadUsers_fold. intros [= <-]. unfold getCredentials. simpl.
    apply loaded_storable. intros u c Hu. by rewrite lookup_empty in Hu.
  - intros [= <-] u c Hu. unfold getCredentials in Hu. simpl in Hu.
    by rewrite lookup_empty in Hu.
Qed.

(** X15: Load, save, load: after the store has been loaded from any file, saving
    it and loading the new file into an empty store gives the same users
    with the same credentials. *)
Theorem load_save_load (disk : option string) (st : state) :
  loadUsers (fresh disk) = Ok st →
  loadUsers (fresh (file (saveUsers st))) = Ok (saveUsers st).
Proof.
  intros Hload. destruct st as [m disk'].
  assert (all_storable m) as Hm.
  { destruct disk as [content|]; unfold fresh in Hload.
    - rewrite loadUsers_fold in Hload. injection Hload as <- _.
      apply loaded_storable. intros u c Hu. by rewrite lookup_empty in Hu.
    - injection Hload as <- _. intros u c Hu. by rewrite lookup_empty in Hu. }
  by rewrite (load_saved m disk' Hm).
Qed.

(** X16: A successful [addUser] is on disk: when the records of the store and the
    new one can be held by the file format, loading the file that [addUser]
    wrote into an empty store gives the state [addUser] left. *)
Theorem addUser_persisted (st : state) (u h s : string) :
  userExists u st = false →
  all_storable (users st) → storable (u, (h, s)) →
  loadUsers (fresh (file (addUser u h s st).2)) = Ok (addUser u h s st).2.
Proof.
  intros Hnew Hst Hrecord. unfold addUser. rewrite Hnew.
  change (loadUsers (fresh (file (saveUsers (State (<[u := (h, s)]> (users st)) (file st)))))
          = Ok (State (<[u := (h, s)]> (users st))
                  (file (saveUsers (State (<[u := (h, s)]> (users st)) (file st)))))).
  apply (load_saved (<[u := (h, s)]> (users st))).
  intros u' c. destruct (decide (u = u')) as [<-|Hne].
  - rewrite lookup_insert_eq. by intros [= <-].
  - rewrite lookup_insert_ne by done. apply Hst.
Qed.

Lemma getlines_last_line (line : string) :
  has_char newline line = false → line ≠ EmptyString → getlines line = [line].
Proof.
  induction line as [|c line IH]; [done|]. intros Hfree _.
  rewrite has_char_cons in Hfree. apply orb_false_iff in Hfree as [Hc Hfree].
  simpl. rewrite Ascii.eqb_sym, Hc.
  destruct line as [|c' line]; [done|]. by rewrite IH.
Qed.

Lemma getlines_join_lines (lines : list string) :
  Forall (λ line, has_char newline line = false) lines →
  getlines (join_lines lines) = lines
  ∧ ∀ last, has_char newline last = false → last ≠ EmptyString →
      getlines (join_lines lines +:+ last) = lines ++ [last].
Proof.
  induction 1 as [|line lines Hline _ [IH1 IH2]]; simpl.
  - split; [done|]. intros last Hlast Hne. by apply getlines_last_line.
  - split.
    + by rewrite (getlines_line _ _ Hline), IH1.
    + intros last Hlast Hne. rewrite append_assoc. simpl.
      by rewrite (getlines_line _ _ Hline), IH2.
Qed.

(** X17: The loop of [loadUsers] reads back the lines of a text, whether or not
    the last line is ended by a newline; an empty line is a line, and a
    newline at the very end does not add one. *)
Theorem getlines_join (lines : list string) :
  Forall (λ line, has_char newline line = false) lines →
  getlines (join_lines lines) = lines
  ∧ ∀ last, has_char newline last = false → last ≠ EmptyString →
      getlines (join_lines lines +:+ last) = lines ++ [last].
Proof. apply getlines_join_lines. Qed.

(** X18: What [saveUsers] writes: one line per user and no other line, the line
    of a user being its name, hash and salt separated by commas. *)
Theorem saved_file_lines (st : state) :
  all_storable (users st) →
  ∃ content, file (saveUsers st) = Some content
    ∧ List.length (getlines content) = size (users st)
    ∧ ∀ line, line ∈ getlines content ↔
        ∃ u h s, getCredentials u st = Some (h, s)
                 ∧ line = u +:+ "," +:+ h +:+ "," +:+ s.
Proof.
  intros Hst. eexists. split; [done|].
  rewrite (getlines_write_entries _ (entries_storable _ Hst)).
  assert (entries (users st) ≡ₚ map_to_list (users st)) as Hperm
    by apply merge_sort_Permutation.
  split.
  - by rewrite length_fmap, Hperm, length_map_to_list.
  - intros line. rewrite list_elem_of_fmap. split.
    + intros ([u [h s]] & -> & Hin). exists u, h, s. split; [|done].
      rewrite Hperm in Hin. by apply elem_of_map_to_list in Hin.
    + intros (u & h & s & Hget & ->). exists (u, (h, s)). split; [done|].
      rewrite Hperm. by apply elem_of_map_to_list.
Qed.

End StoreMore.

(** ** Keyboard input *)

Section Keyboard.
Import Console StoreSpec Vocabulary.
Local Arguments String.append !_ _ / : simpl nomatch.

Lemma pop_push (s : string) c : pop_back (push_back s c) = s.
Proof.
  unfold pop_back, push_back. rewrite length_append. simpl.
  replace (String.length s + 1 - 1)%nat with (String.length s) by lia.
  apply substring_prefix.
Qed.

Lemma push_back_nonempty (s : string) c : push_back s c ≠ EmptyString.
Proof. unfold push_back. by destruct s. Qed.

Lemma read_password_key (c : ascii) (rest acc : string) :
  is_control_key c = false →
  read_password (String c rest) acc = read_password rest (push_back acc c).
Proof.
  unfold is_control_key. intros [Hcr Hbs]%orb_false_iff.
  simpl. by rewrite Hcr, Hbs.
Qed.

Lemma read_password_enter (rest acc : string) :
  read_password (String carriage_return rest) acc = Some (acc, rest).
Proof. reflexivity. Qed.

Lemma read_password_plain (typed rest : string) : ∀ acc,
  no_control_key typed →
  read_password (typed +:+ String carriage_return rest) acc
  = Some (acc +:+ typed, rest).
Proof.
  induction typed as [|c typed IH]; intros acc [Hcr Hbs].
  - cbn [String.append]. rewrite read_password_enter. f_equal. f_equal.
    induction acc as [|a acc IHacc]; simpl; [done | by rewrite <- IHacc].
  - rewrite has_char_cons in Hcr, Hbs.
    apply orb_false_iff in Hcr as [Hc1 Hcr]. apply orb_false_iff in Hbs as [Hc2 Hbs].
    cbn [String.append]. rewrite read_password_key
      by (unfold is_control_key; by rewrite Ascii.eqb_sym, Hc1, Ascii.eqb_sym, Hc2).
    rewrite IH by done. unfold push_back. by rewrite append_assoc.
Qed.

(** X19: Keys typed without Enter or Backspace among them, then Enter: the
    password is those keys, in order, and the keystrokes after Enter are
    left for the next read. *)
Theorem read_password_typed (typed rest : string) :
  no_control_key typed →
  read_password (typed +:+ String carriage_return rest) EmptyString
  = Some (typed, rest).
Proof. apply (read_password_plain typed rest EmptyString). Qed.

(** X20: Backspace erases the key typed just before it; with nothing typed it
    does nothing. *)
Theorem read_password_backspace (c : ascii) (rest acc : string) :
  is_control_key c = false →
  read_password (String c (String backspace rest)) acc = read_password rest acc
  ∧ read_password (String backspace rest) EmptyString = read_password rest EmptyString.
Proof.
  intros Hc. split; [|reflexivity].
  rewrite (read_password_key c _ _ Hc). simpl.
  destruct (push_back acc c) eqn:Hpush; [by apply push_back_nonempty in Hpush|].
  by rewrite <- Hpush, pop_push.
Qed.

Lemma has_char_substring x (s : string) : ∀ n,
  has_char x s = false → has_char x (String.substring 0 n s) = false.
Proof.
  induction s as [|c s IH]; intros [|n] Hfree; simpl; try done.
  rewrite has_char_cons in Hfree. apply orb_false_iff in Hfree as [Hc Hfree].
  by rewrite has_char_cons, Hc, (IH n Hfree).
Qed.

Lemma read_password_clean (keystrokes : string) : ∀ acc password rest,
  no_control_key acc →
  read_password keystrokes acc = Some (password, rest) →
  no_control_key password
  ∧ (String.length rest < String.length keystrokes)%nat.
Proof.
  induction keystrokes as [|c keystrokes IH]; intros acc password rest Hacc; [done|].
  simpl. destruct (Ascii.eqb c carriage_return) eqn:Hcr.
  - intros [= <- <-]. split; [done | lia].
  - destruct (Ascii.eqb c backspace) eqn:Hbs; intros Hread.
    + apply IH in Hread as [? ?]; [split; [done | lia]|].
      destruct acc as [|a acc]; [done|]. destruct Hacc as [H1 H2].
      unfold pop_back. split; by apply has_char_substring.
    + apply IH in Hread as [? ?]; [split; [done | lia]|].
      destruct Hacc as [H1 H2]. unfold push_back, no_control_key.
      rewrite !has_char_append, H1, H2, !has_char_cons.
      by rewrite (Ascii.eqb_sym carriage_return), Hcr, (Ascii.eqb_sym backspace), Hbs.
Qed.

(** X21: A password that [getPasswordFromUser] returns contains neither the Enter
    key nor the Backspace key; reading it consumes at least one keystroke
    and touches nothing but the keystrokes. *)
Theorem getPasswordFromUser_clean (w w' : world) (password : string) :
  getPasswordFromUser w = Returned password w' →
  no_control_key password
  ∧ (String.length (keys w') < String.length (keys w))%nat
  ∧ cin w' = cin w ∧ printed w' = printed w ∧ db w' = db w.
Proof.
  unfold getPasswordFromUser.
  destruct (read_password (keys w) EmptyString) as [[pw rest]|] eqn:Hread; [|discriminate].
  intros [= <- <-]. simpl.
  assert (no_control_key EmptyString) as Hempty by (split; reflexivity).
  destruct (read_password_clean _ _ _ _ Hempty Hread) as [? ?].
  done.
Qed.

End Keyboard.

(** ** The screens *)

Section Screens.
Import CType Console Workflow StoreSpec Vocabulary.
Context `{Sodium}.
Local Arguments String.append !_ _ / : simpl nomatch.

Lemma bind_run {A B} (m : action A) (f : A → action B) (w : world) :
  (m ≫= f) w =
  match m w with
  | Returned a w' => f a w'
  | Thrown e w' => Thrown e w'
  | Blocked w' => Blocked w'
  | OutOfFuel => OutOfFuel
  end.
Proof. reflexivity. Qed.

Lemma print_run (m : message) (w : world) :
  print m w = Returned tt (World (cin w) (keys w) (entropy w) (printed w ++ [m]) (db w)).
Proof. reflexivity. Qed.

Lemma print_all_run (msgs : list message) : ∀ w,
  print_all msgs w =
  Returned tt (World (cin w) (keys w) (entropy w) (printed w ++ msgs) (db w)).
Proof.
  induction msgs as [|m msgs IH]; intros w; simpl.
  - rewrite app_nil_r. by destruct w.
  - rewrite bind_run, print_run, IH. simpl. by rewrite <- app_assoc.
Qed.

Lemma with_cin_run {A} (f : string → A * string) (w : world) :
  with_cin f w =
  Returned (f (cin w)).1 (World (f (cin w)).2 (keys w) (entropy w) (printed w) (db w)).
Proof. unfold with_cin. by destruct (f (cin w)). Qed.

Lemma getPasswordFromUser_run (w : world) :
  match getPasswordFromUser w with
  | Returned _ w' => same_store w w' ∧ cin w' = cin w ∧ printed w' = printed w
  | Blocked w' => w' = w
  | _ => False
  end.
Proof.
  unfold getPasswordFromUser.
  by destruct (read_password (keys w) EmptyString) as [[pw rest]|].
Qed.

(** [setPassword] answers true only for a password that [checkStrength]
    accepts; it does not throw and does not touch the store. *)
Lemma setPassword_run (pw : string) (w : world) :
  match setPassword pw w with
  | Returned ok w' =>
      same_store w w' ∧ cin w' = cin w
      ∧ (ok = true → (StandardPasswordChecker.checkStrength pw).1 = true)
  | Blocked w' => same_store w w' ∧ cin w' = cin w
  | _ => False
  end.
Proof.
  unfold setPassword.
  destruct (StandardPasswordChecker.checkStrength pw) as [strong msgs].
  rewrite bind_run, print_all_run. destruct strong; simpl; [|done].
  rewrite bind_run.
  set (w1 := World _ _ _ _ _).
  assert (∃ out, (if StandardPasswordChecker.calculateStrengthPercentage pw <? 70
                  then print (Warning "Password could be stronger")
                  else if 90 <=? StandardPasswordChecker.calculateStrengthPercentage pw
                       then print (Success "Excellent password!")
                       else mret tt) w1
                 = Returned tt (World (cin w) (keys w) (entropy w) out (db w)))
    as [out ->].
  { destruct (_ <? 70); [by eexists|]. destruct (90 <=? _); by eexists. }
  rewrite bind_run.
  pose proof (getPasswordFromUser_run (World (cin w) (keys w) (entropy w) out (db w)))
    as Hread.
  destruct (getPasswordFromUser _) as [confirm w2| | |]; try done.
  - destruct Hread as ([Hdb Hentropy] & Hcin & _). simpl in *.
    destruct (bool_decide (pw = confirm)); simpl.
    + unfold same_store. simpl. by rewrite Hdb, Hentropy, Hcin.
    + unfold same_store. simpl. by rewrite Hdb, Hentropy, Hcin.
  - by subst.
Qed.

Lemma choose_password_run (fuel : nat) : ∀ w,
  match choose_password fuel w with
  | Returned pw w' =>
      same_store w w' ∧ cin w' = cin w
      ∧ (StandardPasswordChecker.checkStrength pw).1 = true
  | Blocked w' => same_store w w' ∧ cin w' = cin w
  | Thrown _ _ => False
  | OutOfFuel => True
  end.
Proof.
  induction fuel as [|fuel IH]; intros w; [done|].
  cbn [choose_password]. rewrite bind_run.
  pose proof (getPasswordFromUser_run w) as Hread.
  destruct (getPasswordFromUser w) as [pw w1| | |]; try done; [|by subst].
  destruct Hread as ([Hdb Hentropy] & Hcin & _).
  destruct (bool_decide (pw = EmptyString)).
  - rewrite bind_run, print_run.
    set (w2 := World _ _ _ _ _). specialize (IH w2).
    destruct (choose_password fuel w2) as [pw' w3| | |]; try done; simpl in IH;
      unfold same_store in *; simpl in *; intuition congruence.
  - rewrite bind_run. pose proof (setPassword_run pw w1) as Hset.
    destruct (setPassword pw w1) as [ok w2| | |]; try done.
    + destruct Hset as ([Hdb2 Hentropy2] & Hcin2 & Hok). destruct ok.
      * unfold same_store. simpl. split; [split; congruence|].
        split; [congruence | by apply Hok].
      * specialize (IH w2).
        destruct (choose_password fuel w2) as [pw' w3| | |]; try done;
          unfold same_store in *; intuition congruence.
    + unfold same_store in *. intuition congruence.
Qed.

Lemma waitForEnter_run (w : world) :
  waitForEnter w =
  Returned tt (World (Stream.read_line (cin w)).2 (keys w) (entropy w) (printed w) (db w)).
Proof. reflexivity. Qed.

Lemma cin_getline_run (w : world) :
  ∃ line rest, cin_getline w = Returned line (World rest (keys w) (entropy w) (printed w) (db w)).
Proof. unfold cin_getline. rewrite with_cin_run. by eexists _, _. Qed.

(** [loginScreen] does not throw, whatever the key derivation does and
    whatever the file held, and it leaves the store as it is. *)
Lemma loginScreen_run (w : world) :
  match loginScreen w with
  | Returned _ w' | Blocked w' => same_store w w'
  | Thrown _ _ | OutOfFuel => False
  end.
Proof.
  unfold loginScreen. rewrite bind_run.
  destruct (cin_getline_run w) as (username & rest & ->).
  destruct (bool_decide (username = EmptyString)); [done|].
  rewrite bind_run. set (w1 := World _ _ _ _ _).
  pose proof (getPasswordFromUser_run w1) as Hread.
  destruct (getPasswordFromUser w1) as [password w2| | |]; try done; [|by subst].
  destruct Hread as ([Hdb Hentropy] & _).
  rewrite bind_run. unfold with_db. simpl.
  destruct (Database.getCredentials username (db w2)) as [[storedHash storedSalt]|].
  - rewrite bind_run.
    destruct (PasswordHasher.verifyPassword _ _ _); simpl; by split.
  - simpl. by split.
Qed.

Lemma create_account_run (username password : string) (w : world) :
  match create_account username password w with
  | Returned _ w' =>
      ∃ digest,
        crypto_pwhash 32 password (PasswordHasher.randombytes_buf (entropy w)) = Some digest
        ∧ db w' = (Database.addUser username (PasswordHasher.to_hex digest)
                     (PasswordHasher.generateSalt (entropy w)) (db w)).2
  | Thrown e w' =>
      e = runtime_error "Hashing failed" ∧ db w' = db w
      ∧ crypto_pwhash 32 password (PasswordHasher.randombytes_buf (entropy w)) = None
  | Blocked _ | OutOfFuel => False
  end.
Proof.
  unfold create_account. rewrite bind_run. unfold Workflow.generateSalt.
  rewrite bind_run. unfold lift, PasswordHasher.hashPassword.
  rewrite decode_generated_salt. cbn [mbind result_bind].
  destruct (crypto_pwhash 32 password _) as [digest|]; [|done].
  rewrite bind_run. unfold with_db. cbn [db].
  destruct (Database.addUser _ _ _ _) as [added st'] eqn:Hadd.
  rewrite bind_run.
  destruct added; rewrite print_run, waitForEnter_run; cbn [db];
    exists digest; by rewrite Hadd.
Qed.

(** What [registrationScreen] can do to the store. *)
Lemma registrationScreen_run (fuel : nat) (w : world) :
  match registrationScreen fuel w with
  | Returned _ w' =>
      db w' = db w
      ∨ ∃ username password digest,
          username ≠ EmptyString
          ∧ forallb isalnum (list_ascii_of_string username) = true
          ∧ Database.userExists username (db w) = false
          ∧ (StandardPasswordChecker.checkStrength password).1 = true
          ∧ crypto_pwhash 32 password (PasswordHasher.randombytes_buf (entropy w))
            = Some digest
          ∧ db w' = (Database.addUser username (PasswordHasher.to_hex digest)
                       (PasswordHasher.generateSalt (entropy w)) (db w)).2
  | Thrown e w' => e = runtime_error "Hashing failed" ∧ db w' = db w
  | Blocked w' => db w' = db w
  | OutOfFuel => True
  end.
Proof.
  unfold registrationScreen. rewrite bind_run.
  destruct (cin_getline_run w) as (username & rest & ->).
  destruct (bool_decide_reflect (username = EmptyString)) as [|Hname]; [by left|].
  destruct (forallb isalnum (list_ascii_of_string username)) eqn:Halnum; [|by left].
  cbn [negb]. rewrite bind_run. unfold with_db at 1. cbn [db].
  destruct (Database.userExists username (db w)) eqn:Hnew; [by left|].
  rewrite bind_run, print_run, bind_run.
  set (w1 := World _ _ _ _ _).
  pose proof (choose_password_run fuel w1) as Hchoose.
  destruct (choose_password fuel w1) as [password w2| | |]; try done.
  - destruct Hchoose as ([Hdb Hentropy] & _ & Hstrong). simpl in Hdb, Hentropy.
    pose proof (create_account_run username password w2) as Hcreate.
    destruct (create_account username password w2) as [? w3|e w3| |]; try done.
    + destruct Hcreate as (digest & Hdigest & Hdb3). right.
      exists username, password, digest.
      rewrite Hentropy, Hdb in *. done.
    + destruct Hcreate as (-> & -> & _). done.
  - by destruct Hchoose as ([Hdb _] & _).
Qed.

Lemma alnum_storable (username : string) x :
  isalnum x = false →
  forallb isalnum (list_ascii_of_string username) = true →
  has_char x username = false.
Proof.
  intros Hx Halnum. apply (all_chars_exclude isalnum); [|exact Halnum].
  intros c Hc. by apply alnum_not.
Qed.

Lemma new_record_storable (username : string) (digest : list byte) source :
  forallb isalnum (list_ascii_of_string username) = true →
  storable (username, (PasswordHasher.to_hex digest, PasswordHasher.generateSalt source)).
Proof.
  intros Halnum.
  destruct (to_hex_shape digest) as (_ & _ & Hcomma & Hnewline).
  destruct (to_hex_shape (PasswordHasher.randombytes_buf source)) as (_ & _ & _ & Hsalt).
  repeat split; simpl; try done; by apply alnum_storable.
Qed.

Lemma addUser_keeps_synced (st : Database.state) (u h s : string) :
  all_storable (Database.users st) → synced st →
  Database.userExists u st = false → storable (u, (h, s)) →
  all_storable (Database.users (Database.addUser u h s st).2)
  ∧ synced (Database.addUser u h s st).2.
Proof.
  intros Hst _ Hnew Hrecord. unfold Database.addUser. rewrite Hnew.
  assert (all_storable (<[u := (h, s)]> (Database.users st))) as Hst'.
  { intros u' c. destruct (decide (u = u')) as [<-|Hne].
    - rewrite lookup_insert_eq. by intros [= <-].
    - rewrite lookup_insert_ne by done. apply Hst. }
  split; [exact Hst'|]. eexists. split; [by apply load_saved | done].
Qed.

Lemma registrationScreen_keeps_synced (fuel : nat) (w : world) :
  all_storable (Database.users (db w)) → synced (db w) →
  match registrationScreen fuel w with
  | Returned _ w' | Blocked w' =>
      all_storable (Database.users (db w')) ∧ synced (db w')
  | Thrown e w' =>
      e = runtime_error "Hashing failed"
      ∧ all_storable (Database.users (db w')) ∧ synced (db w')
  | OutOfFuel => True
  end.
Proof.
  intros Hst Hsync. pose proof (registrationScreen_run fuel w) as Hrun.
  destruct (registrationScreen fuel w) as [? w'|e w'|w'|]; try done.
  - destruct Hrun as [->|(u & pw & digest & _ & Halnum & Hnew & _ & _ & ->)]; [done|].
    apply addUser_keeps_synced; try done. by apply new_record_storable.
  - by destruct Hrun as [-> ->].
  - by rewrite Hrun.
Qed.

Lemma menu_run (fuel : nat) : ∀ w,
  all_storable (Database.users (db w)) → synced (db w) →
  match menu fuel w with
  | Returned code w' =>
      code = 0 ∧ all_storable (Database.users (db w')) ∧ synced (db w')
  | Thrown e w' =>
      e = runtime_error "Hashing failed"
      ∧ all_storable (Database.users (db w')) ∧ synced (db w')
  | Blocked w' => all_storable (Database.users (db w')) ∧ synced (db w')
  | OutOfFuel => True
  end.
Proof.
  induction fuel as [|fuel IH]; intros w Hst Hsync; [done|].
  cbn [menu]. rewrite bind_run. unfold cin_int. rewrite with_cin_run.
  destruct (extract_int (cin w)).1 as [choice|].
  - rewrite bind_run. unfold cin_ignore. rewrite with_cin_run. cbn [fst snd].
    set (w1 := World _ _ _ _ _).
    destruct (choice =? 1); [|destruct (choice =? 2); [|destruct (choice =? 3)]].
    + rewrite bind_run. pose proof (loginScreen_run w1) as Hlogin.
      destruct (loginScreen w1) as [? w2| |w2|]; try done;
        destruct Hlogin as [Hdb _]; simpl in Hdb; [|by rewrite Hdb].
      apply IH; by rewrite Hdb.
    + rewrite bind_run.
      pose proof (registrationScreen_keeps_synced fuel w1 Hst Hsync) as Hreg.
      destruct (registrationScreen fuel w1) as [? w2|e w2|w2|]; try done.
      destruct Hreg as [Hst2 Hsync2]. by apply IH.
    + rewrite bind_run, print_run. by simpl.
    + rewrite bind_run, print_run. by apply IH.
  - rewrite bind_run. unfold cin_ignore_line. rewrite with_cin_run.
    rewrite bind_run, print_run. by apply IH.
Qed.

Lemma loaded_synced (disk : option string) :
  ∃ st, Database.loadUsers (Database.fresh disk) = Ok st
        ∧ Database.file st = disk
        ∧ all_storable (Database.users st) ∧ synced st.
Proof.
  assert (all_storable (∅ : gmap string Database.credentials)) as Hempty.
  { intros u c Hu. by rewrite lookup_empty in Hu. }
  destruct disk as [content|]; unfold Database.fresh.
  - rewrite loadUsers_fold. eexists. split; [done|]. split; [done|].
    split; [by apply loaded_storable|].
    unfold synced, Database.fresh. simpl. rewrite loadUsers_fold. by eexists.
  - eexists. split; [done|]. split; [done|]. split; [done|].
    unfold synced. by eexists.
Qed.

Lemma main_run (fuel : nat) (w : world) (disk : option string) :
  db w = Database.fresh disk →
  match main fuel w with
  | Returned code w' =>
      (code = 1 ∧ sodium_init < 0 ∧ db w' = db w ∧ cin w' = cin w ∧ keys w' = keys w)
      ∨ (code = 0 ∧ 0 ≤ sodium_init ∧ synced (db w'))
  | Thrown e w' => e = runtime_error "Hashing failed" ∧ synced (db w')
  | Blocked w' => synced (db w')
  | OutOfFuel => True
  end.
Proof.
  intros Hfresh. unfold main, PasswordHasher.initialize.
  destruct (Z.leb_spec 0 sodium_init) as [Hinit|Hinit].
  - rewrite bind_run, print_all_run. cbn [negb]. rewrite bind_run.
    unfold Workflow.loadUsers. cbn [db]. rewrite Hfresh.
    destruct (loaded_synced disk) as (st & -> & _ & Hst & Hsync).
    set (w1 := World _ _ _ _ _).
    pose proof (menu_run fuel w1 Hst Hsync) as Hmenu.
    destruct (menu fuel w1) as [code w2|e w2|w2|]; try done.
    + right. by destruct Hmenu as (-> & _ & ?).
    + by destruct Hmenu as (-> & _ & ?).
    + by destruct Hmenu.
  - rewrite bind_run, print_all_run. cbn [negb]. left. simpl. repeat split; done.
Qed.

Lemma hashPassword_generated (password : string) source (digest : list byte) :
  crypto_pwhash 32 password (PasswordHasher.randombytes_buf source) = Some digest →
  PasswordHasher.hashPassword password (PasswordHasher.generateSalt source)
  = Ok (PasswordHasher.to_hex digest).
Proof.
  intros Hdigest. unfold PasswordHasher.hashPassword.
  rewrite decode_generated_salt. cbn [mbind result_bind]. by rewrite Hdigest.
Qed.

Lemma read_line_typed (line rest : string) :
  has_char Stream.newline line = false →
  Stream.read_line (line +:+ String Stream.newline rest) = (line, rest).
Proof.
  induction line as [|c line IH]; intros Hfree; [done|].
  rewrite has_char_cons in Hfree. apply orb_false_iff in Hfree as [Hc Hfree].
  cbn [String.append Stream.read_line].
  by rewrite Ascii.eqb_sym, Hc, (IH Hfree).
Qed.

Lemma cin_getline_typed (w : world) (line rest : string) :
  cin w = line +:+ String Stream.newline rest →
  has_char Stream.newline line = false →
  cin_getline w = Returned line (World rest (keys w) (entropy w) (printed w) (db w)).
Proof.
  intros Hcin Hfree. unfold cin_getline. rewrite with_cin_run, Hcin.
  unfold Stream.getline.
  destruct (line +:+ String Stream.newline rest) eqn:Htext;
    [by destruct line|].
  rewrite <- Htext. by rewrite (read_line_typed _ _ Hfree).
Qed.

(** X22: The password loop of the registration ends only with a password that
    [checkStrength] accepts; it does not throw, and it leaves the store,
    the random source and the standard input as they are. *)
Theorem choose_password_strong (fuel : nat) (w : world) :
  match choose_password fuel w with
  | Returned password w' =>
      (StandardPasswordChecker.checkStrength password).1 = true
      ∧ db w' = db w ∧ entropy w' = entropy w ∧ cin w' = cin w
  | Blocked w' => db w' = db w ∧ entropy w' = entropy w ∧ cin w' = cin w
  | Thrown _ _ => False
  | OutOfFuel => True
  end.
Proof.
  pose proof (choose_password_run fuel w) as Hrun.
  destruct (choose_password fuel w); try done; unfold same_store in Hrun;
    intuition.
Qed.

(** X23: [loginScreen] never throws, whatever the key derivation does and
    whatever salt and hash the store holds, and it leaves the store as it
    is. *)
Theorem loginScreen_read_only (w : world) :
  match loginScreen w with
  | Returned _ w' | Blocked w' => db w' = db w
  | Thrown _ _ | OutOfFuel => False
  end.
Proof.
  pose proof (loginScreen_run w) as Hrun.
  destruct (loginScreen w); try done; by destruct Hrun.
Qed.

(** X24: The message of [loginScreen] for a username and a password that were
    typed: "User not found" for a username that is not in the store,
    otherwise the answer of [verifyPassword] on the stored hash and salt. *)
Theorem loginScreen_verdict (w : world) (username rest password more : string) :
  cin w = username +:+ String Stream.newline rest →
  has_char Stream.newline username = false →
  username ≠ EmptyString →
  keys w = password +:+ String carriage_return more →
  no_control_key password →
  loginScreen w =
  Returned tt
    (World (Stream.read_line rest).2 more (entropy w)
       (printed w ++
        [match Database.getCredentials username (db w) with
         | None => Error "User not found"
         | Some (storedHash, storedSalt) =>
             if PasswordHasher.verifyPassword password storedHash storedSalt
             then Success "Login successful!"
             else Error "Invalid credentials"
         end])
       (db w)).
Proof.
  intros Hcin Hline Hname Hkeys Hpassword. unfold loginScreen.
  rewrite bind_run, (cin_getline_typed w username rest Hcin Hline).
  rewrite bool_decide_eq_false_2 by done.
  rewrite bind_run. unfold getPasswordFromUser. cbn [keys].
  rewrite Hkeys, (read_password_plain password more EmptyString Hpassword).
  cbn [String.append]. rewrite bind_run. unfold with_db. cbn [db cin entropy printed].
  destruct (Database.getCredentials username (db w)) as [[storedHash storedSalt]|].
  - rewrite bind_run.
    by destruct (PasswordHasher.verifyPassword password storedHash storedSalt).
  - done.
Qed.

(** X25: [registrationScreen] either leaves the store as it is or adds one
    record: for a username that is not empty, is alphanumeric and was not in
    the store, with a hash and a salt that verify a password
    [checkStrength] accepts; the other records are untouched.  The only
    exception it lets out is the one of the key derivation, and then the
    store is as it was. *)
Theorem registrationScreen_outcomes (fuel : nat) (w : world) :
  match registrationScreen fuel w with
  | Returned _ w' =>
      db w' = db w
      ∨ ∃ username password hash salt,
          username ≠ EmptyString
          ∧ forallb isalnum (list_ascii_of_string username) = true
          ∧ Database.userExists username (db w) = false
          ∧ (StandardPasswordChecker.checkStrength password).1 = true
          ∧ PasswordHasher.verifyPassword password hash salt = true
          ∧ db w' = (Database.addUser username hash salt (db w)).2
          ∧ Database.getCredentials username (db w') = Some (hash, salt)
          ∧ ∀ other, other ≠ username →
              Database.getCredentials other (db w') = Database.getCredentials other (db w)
  | Thrown e w' => e = runtime_error "Hashing failed" ∧ db w' = db w
  | Blocked w' => db w' = db w
  | OutOfFuel => True
  end.
Proof.
  pose proof (registrationScreen_run fuel w) as Hrun.
  destruct (registrationScreen fuel w) as [? w'| | |]; try done.
  destruct Hrun as [Hsame|(u & pw & digest & Hname & Halnum & Hnew & Hstrong & Hdigest & Hdb)];
    [by left|].
  right. exists u, pw, (PasswordHasher.to_hex digest),
    (PasswordHasher.generateSalt (entropy w)).
  split; [done|]. split; [done|]. split; [done|]. split; [done|].
  split; [by apply verifyPassword_true_iff, hashPassword_generated|].
  split; [done|]. rewrite Hdb. unfold Database.addUser. rewrite Hnew.
  unfold Database.getCredentials. simpl. split.
  - apply lookup_insert_eq.
  - intros other Hother. by apply lookup_insert_ne.
Qed.

(** X26: A username that is empty, not alphanumeric or already in the store ends
    [registrationScreen] with one error message, before any password is
    asked: no keystroke is read and the store is as it was. *)
Theorem registrationScreen_rejects_username
    (fuel : nat) (w : world) (username rest : string) :
  cin w = username +:+ String Stream.newline rest →
  has_char Stream.newline username = false →
  username = EmptyString
  ∨ forallb isalnum (list_ascii_of_string username) = false
  ∨ Database.userExists username (db w) = true →
  registrationScreen fuel w =
  Returned tt
    (World (Stream.read_line rest).2 (keys w) (entropy w)
       (printed w ++
        [Error (if bool_decide (username = EmptyString) then "Username required"
                else if forallb isalnum (list_ascii_of_string username)
                     then "Username already taken"
                     else "Only alphanumeric characters allowed")])
       (db w)).
Proof.
  intros Hcin Hline Hbad. unfold registrationScreen.
  rewrite bind_run, (cin_getline_typed w username rest Hcin Hline).
  destruct (bool_decide (username = EmptyString)) eqn:Hempty; [done|].
  destruct (forallb isalnum (list_ascii_of_string username)) eqn:Halnum; [|done].
  cbn [negb]. rewrite bind_run. unfold with_db at 1. cbn [db].
  rewrite bool_decide_eq_false in Hempty.
  destruct Hbad as [Hbad | [Hbad | Hbad]]; [done | congruence | by rewrite Hbad].
Qed.

(** X27: From a start with an empty store, wherever [main] stops (exit, an
    exception that leaves it, a wait for a key), the users in memory are
    those a new process would load from [users.txt]; only when libsodium
    fails to initialise does it return 1, before it reads the file or any
    input, and otherwise a return is a return of 0.  The only exception that
    leaves [main] is the one of the key derivation. *)
Theorem main_keeps_store_synced (fuel : nat) (w : world) (disk : option string) :
  db w = Database.fresh disk →
  match main fuel w with
  | Returned code w' =>
      (code = 1 ∧ sodium_init < 0 ∧ db w' = db w ∧ cin w' = cin w ∧ keys w' = keys w)
      ∨ (code = 0 ∧ 0 ≤ sodium_init ∧ synced (db w'))
  | Thrown e w' => e = runtime_error "Hashing failed" ∧ synced (db w')
  | Blocked w' => synced (db w')
  | OutOfFuel => True
  end.
Proof. apply main_run. Qed.

End Screens.

(** ** The header *)

Section Header.
Import Stream StoreSpec Vocabulary Terminal.
Local Arguments String.append !_ _ / : simpl nomatch.

Lemma fill_free x c n : Ascii.eqb x c = false → has_char x (fill n c) = false.
Proof.
  intros Hne. induction n as [|n IH]; [done|].
  cbn [fill]. by rewrite has_char_cons, Hne, IH.
Qed.

Lemma centred_margin (n : nat) : ((60 + n) / 2 - n = (60 - n) / 2)%nat.
Proof.
  destruct (le_lt_dec n 60) as [Hle|Hgt].
  - replace (60 + n)%nat with ((60 - n) + n * 2)%nat by lia.
    rewrite Nat.div_add by lia. lia.
  - replace (60 - n)%nat with 0%nat by lia.
    assert ((60 + n) / 2 < n)%nat; [|rewrite Nat.Div0.div_0_l; lia].
    apply Nat.Div0.div_lt_upper_bound. lia.
Qed.

(** X28: The header is four lines: a rule of 60 signs, the title, the rule again
    and the colour reset.  The title is never cut; it is preceded by half of
    the columns it leaves free out of 60, rounded down, so a title of up to
    60 characters is centred. *)
Theorem printHeader_centres_title (title : string) :
  has_char newline title = false →
  getlines (printHeader title) =
  [ Bold +:+ Blue +:+ fill 60 "=";
    fill ((60 - String.length title) / 2) " " +:+ title;
    fill 60 "=";
    Reset ].
Proof.
  intros Htitle. unfold printHeader, setw. rewrite centred_margin.
  set (margin := fill _ " ").
  assert (has_char newline (margin +:+ title) = false) as Hsecond.
  { rewrite has_char_append, Htitle. unfold margin. by rewrite fill_free. }
  pose proof (getlines_join_lines
    [Bold +:+ Blue +:+ fill 60 "="; margin +:+ title; fill 60 "="; Reset]) as [Hlines _].
  { repeat constructor; try done. }
  rewrite <- Hlines. f_equal.
Qed.

Lemma printHeader_centres_title_witness :
  has_char newline "User Login" = false
  ∧ getlines (printHeader "User Login") =
    [ Bold +:+ Blue +:+ fill 60 "=";
      fill 25 " " +:+ "User Login";
      fill 60 "=";
      Reset ].
Proof.
  split; [reflexivity|].
  apply (printHeader_centres_title "User Login"). reflexivity.
Defined.

End Header.

(** ** Instances of the properties that have a condition *)

Section Instances.
Import StdString Stream Database StoreSpec Vocabulary Console Examples MoreExamples.

Lemma salt_hex_round_trip_witness :
  List.length (repeat Byte.x2a 16) = 16%nat
  ∧ PasswordHasher.decode_salt (H := working_sodium)
      (PasswordHasher.to_hex (repeat Byte.x2a 16)) = Ok (repeat Byte.x2a 16).
Proof.
  split; [reflexivity|].
  apply (salt_hex_round_trip (H := working_sodium)). reflexivity.
Defined.

Lemma hashPassword_ignores_salt_tail_witness :
  PasswordHasher.hashPassword (H := working_sodium) "Str0ng!Passw0rd"
    (PasswordHasher.to_hex (repeat Byte.x2a 16) +:+ "zz")
  = PasswordHasher.hashPassword (H := working_sodium) "Str0ng!Passw0rd"
      (PasswordHasher.to_hex (repeat Byte.x2a 16)).
Proof.
  apply (hashPassword_ignores_salt_tail (H := working_sodium)).
  simpl. lia.
Defined.

Lemma hashPassword_exceptions_witness :
  PasswordHasher.hashPassword (H := exhausted_sodium) "Str0ng!Passw0rd"
    (PasswordHasher.to_hex (repeat Byte.x2a 16))
  = Throw (runtime_error "Hashing failed")
  ∧ PasswordHasher.decode_salt (H := exhausted_sodium)
      (PasswordHasher.to_hex (repeat Byte.x2a 16)) = Ok (repeat Byte.x2a 16).
Proof.
  split; [reflexivity|].
  pose proof (hashPassword_exceptions (H := exhausted_sodium) "Str0ng!Passw0rd"
                (PasswordHasher.to_hex (repeat Byte.x2a 16))
                (runtime_error "Hashing failed") eq_refl) as Hkind.
  destruct (PasswordHasher.decode_salt _) as [salt|e] eqn:Hdecode.
  - vm_compute in Hdecode. by injection Hdecode as <-.
  - by destruct Hkind as [<- ?].
Defined.

Lemma short_salt_rejected_witness :
  (String.length "abcd" + 1 < 2 * 16)%nat
  ∧ PasswordHasher.verifyPassword (H := working_sodium) "Str0ng!Passw0rd" "00" "abcd"
    = false.
Proof.
  split; [simpl; lia|].
  apply (short_salt_rejected (H := working_sodium) "Str0ng!Passw0rd" "00" "abcd").
  simpl. lia.
Defined.

Lemma hashPassword_hex_witness :
  PasswordHasher.hashPassword (H := working_sodium) "Str0ng!Passw0rd"
    (PasswordHasher.to_hex (repeat Byte.x2a 16))
  = Ok (PasswordHasher.to_hex (repeat Byte.x2a 32))
  ∧ has_char "," (PasswordHasher.to_hex (repeat Byte.x2a 32)) = false.
Proof.
  split; [reflexivity|].
  apply (hashPassword_hex (H := working_sodium) "Str0ng!Passw0rd"
           (PasswordHasher.to_hex (repeat Byte.x2a 16))).
  reflexivity.
Defined.

Lemma loadUsers_keeps_users_witness :
  let st := State {[ "carol" := ("aa", "bb") ]} (Some bob_line) in
  ∃ st', loadUsers st = Ok st'
         ∧ file st' = Some bob_line
         ∧ userExists "carol" st' = true ∧ userExists "bob" st' = true.
Proof.
  intros st.
  pose (st' := State (<["bob" := ("h1", "s1")]> {[ "carol" := ("aa", "bb") ]})
                 (Some bob_line)).
  assert (loadUsers st = Ok st') as Hload by reflexivity.
  exists st'. split; [exact Hload|].
  destruct (loadUsers_keeps_users st st' Hload) as (Hfile & Hkeeps & _).
  split; [exact Hfile|]. split; [apply Hkeeps|]; reflexivity.
Defined.

Lemma loaded_records_storable_witness :
  ∃ st, loadUsers (fresh (Some bob_line)) = Ok st
        ∧ getCredentials "bob" st = Some ("h1", "s1")
        ∧ storable ("bob", ("h1", "s1")).
Proof.
  exists (State {[ "bob" := ("h1", "s1") ]} (Some bob_line)).
  split; [reflexivity|]. split; [reflexivity|].
  apply (loaded_records_storable (Some bob_line)
           (State {[ "bob" := ("h1", "s1") ]} (Some bob_line))); reflexivity.
Defined.

Lemma load_save_load_witness :
  let st := State {[ "bob" := ("h1", "s1") ]} (Some ("x" +:+ String newline bob_line)) in
  loadUsers (fresh (Some ("x" +:+ String newline bob_line))) = Ok st
  ∧ loadUsers (fresh (file (saveUsers st))) = Ok (saveUsers st).
Proof.
  intros st. split; [reflexivity|].
  apply (load_save_load (Some ("x" +:+ String newline bob_line))). reflexivity.
Defined.

Lemma addUser_persisted_witness :
  loadUsers (fresh (file (addUser "alice" "aa" "bb" (fresh None)).2))
  = Ok (addUser "alice" "aa" "bb" (fresh None)).2.
Proof.
  apply addUser_persisted.
  - reflexivity.
  - intros u c Hu.
    change (users (fresh None)) with (∅ : gmap string credentials) in Hu.
    by rewrite lookup_empty in Hu.
  - by vm_compute.
Defined.

Lemma getlines_join_witness :
  getlines (join_lines ["a"; ""; "b"]) = ["a"; ""; "b"]
  ∧ getlines (join_lines ["a"; ""] +:+ "b") = ["a"; ""] ++ ["b"].
Proof.
  destruct (getlines_join ["a"; ""; "b"]) as [Hall _]; [by repeat constructor|].
  destruct (getlines_join ["a"; ""]) as [_ Hlast]; [by repeat constructor|].
  split; [exact Hall | by apply Hlast].
Defined.

Lemma saved_file_lines_witness :
  ∃ content,
    file (saveUsers (State {[ "alice" := ("aa", "bb") ]} None)) = Some content
    ∧ List.length (getlines content) = 1%nat.
Proof.
  destruct (saved_file_lines (State {[ "alice" := ("aa", "bb") ]} None))
    as (content & Hfile & Hlength & _).
  { intros u c Hlookup. cbn [users] in Hlookup.
    apply lookup_singleton_Some in Hlookup as [<- <-]. by vm_compute. }
  exists content. split; [exact Hfile|]. rewrite Hlength. reflexivity.
Defined.

Lemma read_password_typed_witness :
  no_control_key "Str0ng!Passw0rd"
  ∧ read_password ("Str0ng!Passw0rd" +:+ String carriage_return "next") EmptyString
    = Some ("Str0ng!Passw0rd", "next").
Proof.
  assert (no_control_key "Str0ng!Passw0rd") as Hclean by (split; reflexivity).
  split; [exact Hclean | by apply read_password_typed].
Defined.

Lemma read_password_backspace_witness :
  is_control_key "x" = false
  ∧ read_password (String "x" (String backspace key_enter)) "ab"
    = read_password key_enter "ab".
Proof.
  split; [reflexivity|].
  apply (read_password_backspace "x" key_enter "ab"). reflexivity.
Defined.

Lemma getPasswordFromUser_clean_witness :
  ∃ w', getPasswordFromUser alice_registers = Returned "Str0ng!Passw0rd" w'
        ∧ no_control_key "Str0ng!Passw0rd"
        ∧ db w' = db alice_registers.
Proof.
  eexists. split; [reflexivity|].
  edestruct (getPasswordFromUser_clean alice_registers) as (Hclean & _ & _ & _ & Hdb);
    [reflexivity|].
  split; [exact Hclean | exact Hdb].
Defined.

Lemma loginScreen_verdict_witness :
  ∃ w', Workflow.loginScreen (H := working_sodium) alice_logs_in = Returned tt w'
        ∧ printed w' = [Error "Invalid credentials"].
Proof.
  eexists. split.
  - apply (loginScreen_verdict (H := working_sodium) alice_logs_in
             "alice" enter "Str0ng!Passw0rd" EmptyString);
      [reflexivity | reflexivity | discriminate | reflexivity | split; reflexivity].
  - reflexivity.
Defined.

Lemma registrationScreen_rejects_username_witness :
  ∃ w', Workflow.registrationScreen (H := working_sodium) 1 alice_logs_in
        = Returned tt w'
        ∧ printed w' = [Error "Username already taken"]
        ∧ keys w' = keys alice_logs_in.
Proof.
  eexists. split.
  - apply (registrationScreen_rejects_username (H := working_sodium) 1 alice_logs_in
             "alice" enter); [reflexivity | reflexivity |].
    right. right. reflexivity.
  - split; reflexivity.
Defined.

Lemma main_keeps_store_synced_witness :
  db alice_registers = fresh None
  ∧ match Workflow.main (H := working_sodium) 2 alice_registers with
    | Returned code w' => code = 0 ∧ synced (db w')
    | _ => False
    end.
Proof.
  split; [reflexivity|].
  pose proof (main_keeps_store_synced (H := working_sodium) 2 alice_registers None eq_refl)
    as Hmain.
  destruct (Workflow.main 2 alice_registers) as [code w'| | |] eqn:Hrun;
    try (vm_compute in Hrun; discriminate Hrun).
  destruct Hmain as [(_ & Hinit & _)|(Hcode & _ & Hsync)].
  - vm_compute in Hinit. discriminate Hinit.
  - split; assumption.
Defined.

End Instances.
